(** * solana-validator-ha: gossip view and validator configuration

    A shallow embedding of [internal/gossip/state.go] and
    [internal/config/validator.go], and a model of the rendering of role
    command templates, with the properties the specification states about
    them.

    Conventions.
    - Go strings are byte strings: [string].
    - A Go [map[string]V] is a [gmap string V]. Go ranges over a map in an
      unspecified order that may change from one loop to the next; every
      [range] statement therefore takes its order from a [MapRange], and the
      theorems hold for all of them.
    - [time.Time] is an instant in nanoseconds ([Z]); [time.Duration] is a
      signed 64-bit count of nanoseconds.
    - A Go [error] is [option string]: [None] is [nil], [Some msg] carries
      the message.
    - A run that dereferences a nil pointer does not return: [Panic]. *)

From Stdlib Require Import ZArith Ascii String List Lia.
From stdpp Require Import base option list gmap strings fin_maps fin_map_dom.

Local Open Scope string_scope.
Local Open Scope list_scope.

(** ** Outcomes of a call *)

Definition error := option string.

Inductive run (A : Type) : Type :=
| Ret (a : A)
| Panic (why : string).
Arguments Ret {A} a.
Arguments Panic {A} why.

Definition returned {A} (r : run A) : Prop := exists a, r = Ret a.

(** ** The parts of Go's [strings] package the sources call *)

Module strings.

(** [strings.Split(s, sep)[0]] for a one-byte separator: the text before
    the first occurrence of [sep], the whole of [s] when there is none. *)
Fixpoint SplitHead (sep : ascii) (s : string) : string :=
  match s with
  | EmptyString => EmptyString
  | String c rest =>
      if Ascii.eqb c sep then EmptyString else String c (SplitHead sep rest)
  end.

Fixpoint trimLeftByte (c : ascii) (s : string) : string :=
  match s with
  | EmptyString => EmptyString
  | String a rest => if Ascii.eqb a c then trimLeftByte c rest else s
  end.

Fixpoint trimRightByte (c : ascii) (s : string) : string :=
  match s with
  | EmptyString => EmptyString
  | String a rest =>
      match trimRightByte c rest with
      | EmptyString => if Ascii.eqb a c then EmptyString else String a EmptyString
      | kept => String a kept
      end
  end.

(** [strings.Trim(s, cutset)] for a cutset of one ASCII byte. *)
Definition Trim (s : string) (c : ascii) : string :=
  trimLeftByte c (trimRightByte c s).

Fixpoint occurs (c : ascii) (s : string) : bool :=
  match s with
  | EmptyString => false
  | String a rest => Ascii.eqb a c || occurs c rest
  end.

End strings.

(** ** Ranging over a Go map *)

Record MapRange : Type := {
  range_of : forall V : Type, gmap string V -> list (string * V);
  range_perm : forall V (m : gmap string V), range_of V m ≡ₚ map_to_list m
}.

Definition range {V} (R : MapRange) (m : gmap string V) : list (string * V) :=
  range_of R V m.

Definition sorted_range : MapRange :=
  {| range_of := fun V m => map_to_list m;
     range_perm := fun V m => reflexivity (map_to_list m) |}.

Definition reversed_range : MapRange :=
  {| range_of := fun V m => reverse (map_to_list m);
     range_perm := fun V m => reverse_Permutation (map_to_list m) |}.

(** ** [time] *)

Module time.

Definition minDuration : Z := - 2 ^ 63.
Definition maxDuration : Z := 2 ^ 63 - 1.

(** [t.Sub(u)]: the difference of two instants, saturated to the range of a
    [Duration]. *)
Definition Sub (t u : Z) : Z :=
  if (t - u <? minDuration)%Z then minDuration
  else if (maxDuration <? t - u)%Z then maxDuration
  else (t - u)%Z.

(** [time.Since(t)], read when the clock shows [now]. *)
Definition Since (now t : Z) : Z := Sub now t.

End time.

(** ** Configured peers ([config.Peers]) *)

Module peers.

(** Modelled from the spec: the declaration of [config.Peer] is not among
    the sources at hand. A peer is static configuration,
    [{ name, public_ip }]; the peer set maps each name to its peer. *)
Record Peer : Type := { Name : string; IP : string }.

(** Modelled from the spec: [Peers.GetIPs] is not among the sources at
    hand; its test asks for the IP of every configured peer, in the order
    in which the map happens to be ranged over. *)
Definition GetIPs (R : MapRange) (p : gmap string Peer) : list string :=
  (fun entry => IP entry.2) <$> range R p.

End peers.

(** [slices.Contains] on strings. *)
Definition slices_Contains (l : list string) (x : string) : bool :=
  existsb (String.eqb x) l.

(** ** The cluster directory ([rpc.Client.GetClusterNodes]) *)

Module rpc.

(** One entry of [getClusterNodes]. [Pubkey] is the node's public key in
    its base58 rendering, the only form [Refresh] consumes
    ([node.Pubkey.String()]); [Gossip] is a pointer in the source, [None]
    when it is nil. *)
Record GetClusterNodesResult : Type := {
  Pubkey : string;
  Gossip : option string
}.

End rpc.

(** ** [internal/gossip/state.go] *)

Module gossip.

Record PeerState : Type := {
  IP : string;
  Pubkey : string;
  LastSeenAtUTC : Z;
  LastSeenActive : bool
}.

(** The fields of [State] that hold data; the RPC client and the logger
    are handles to the outside and appear as [Env] and as the log that
    [Refresh] returns. *)
Record State : Type := {
  PeerStatesRefreshedAt : Z;
  peerStatesByName : gmap string PeerState;
  configPeers : gmap string peers.Peer;
  activePubkey : string;
  selfIP : string
}.

Record Options : Type := {
  ActivePubkey : string;
  SelfIP : string;
  ConfigPeers : gmap string peers.Peer
}.

Definition NewState (opts : Options) : State :=
  {| PeerStatesRefreshedAt := 0;
     peerStatesByName := ∅;
     configPeers := ConfigPeers opts;
     activePubkey := ActivePubkey opts;
     selfIP := SelfIP opts |}.

(** What one call reads from outside: the clock, once per reading, and
    the order of every [range] over a map. *)
Record Env : Type := {
  now_at : nat -> Z;
  range_at : nat -> MapRange
}.

(** The log lines at warning and error level (debug lines carry no state
    and are left out). *)
Inductive Level : Type := WarnLevel | ErrorLevel.

Record LogLine : Type := {
  level : Level;
  msg : string;
  keyvals : list (string * string)
}.

Definition hardcodedActivePubkey : string :=
  "peNgUgnzs1jGogUPW8SThXMvzNpzKSNf3om78xVPAYx".

(** [for name, peer := range p.configPeers { if peer.IP == nodeIP { peerName = name; break } }] *)
Fixpoint peerNameFor (entries : list (string * peers.Peer)) (nodeIP : string) : string :=
  match entries with
  | [] => ""
  | (name, peer) :: rest =>
      if String.eqb (peers.IP peer) nodeIP then name else peerNameFor rest nodeIP
  end.

Section Refresh.
Context (E : Env) (p : State).

(** The loop over the returned nodes. [i] is the position of the node at
    hand; [latest] is [latestPeerStatesByName]. Leaving through
    [Ret] before the list ends is the [break]. *)
Fixpoint scanNodes (i : nat) (clusterNodes : list rpc.GetClusterNodesResult)
    (latest : gmap string PeerState) (log : list LogLine)
    : run (gmap string PeerState * list LogLine) :=
  match clusterNodes with
  | [] => Ret (latest, log)
  | node :: rest =>
      match rpc.Gossip node with
      | None => Panic "invalid memory address or nil pointer dereference"
      | Some gossipAddr =>
          let nodeIP := strings.SplitHead ":" gossipAddr in
          if negb (slices_Contains
                     (peers.GetIPs (range_at E (2 * i)) (configPeers p)) nodeIP)
          then scanNodes (S i) rest latest log
          else
            let peerName :=
              peerNameFor (range (range_at E (2 * i + 1)) (configPeers p)) nodeIP in
            if String.eqb peerName ""
            then scanNodes (S i) rest latest
                   (log ++ [ {| level := WarnLevel;
                                msg := "peer not found in config";
                                keyvals := [("ip", nodeIP)] |} ])
            else
              let isActive := String.eqb (rpc.Pubkey node) hardcodedActivePubkey in
              let peerState :=
                {| IP := nodeIP;
                   LastSeenAtUTC := now_at E i;
                   Pubkey := rpc.Pubkey node;
                   LastSeenActive := isActive |} in
              let latest' := <[peerName := peerState]> latest in
              if Nat.eqb (size (configPeers p)) (size latest')
              then Ret (latest', log)
              else scanNodes (S i) rest latest' log
      end
  end.

(** The closing loop: one warning per configured peer without an entry. *)
Fixpoint warnMissing (entries : list (string * peers.Peer))
    (latest : gmap string PeerState) : list LogLine :=
  match entries with
  | [] => []
  | (name, peer) :: rest =>
      match latest !! name with
      | Some _ => warnMissing rest latest
      | None =>
          {| level := WarnLevel;
             msg := "peer not found in gossip";
             keyvals := [("name", name); ("ip", peers.IP peer)] |}
          :: warnMissing rest latest
      end
  end.

(** [Refresh], given what [GetClusterNodes] answered. *)
Definition Refresh (reply : list rpc.GetClusterNodesResult * error)
    : run (State * list LogLine) :=
  let '(clusterNodes, err) := reply in
  match err with
  | Some e =>
      Ret ({| PeerStatesRefreshedAt := now_at E 0;
              peerStatesByName := ∅;
              configPeers := configPeers p;
              activePubkey := activePubkey p;
              selfIP := selfIP p |},
           [ {| level := ErrorLevel;
                msg := "failed to get cluster nodes";
                keyvals := [("error", e)] |} ])
  | None =>
      match scanNodes 0 clusterNodes ∅ [] with
      | Panic why => Panic why
      | Ret (latest, log) =>
          let n := length clusterNodes in
          Ret ({| PeerStatesRefreshedAt := now_at E n;
                  peerStatesByName := latest;
                  configPeers := configPeers p;
                  activePubkey := activePubkey p;
                  selfIP := selfIP p |},
               log ++ warnMissing (range (range_at E (2 * n)) (configPeers p)) latest)
      end
  end.

End Refresh.

(** [HasActivePeer] *)
Definition HasActivePeer (R : MapRange) (p : State) : bool :=
  existsb (fun entry => LastSeenActive entry.2) (range R (peerStatesByName p)).

(** The loop of [HasActivePeerInTheLast]; the clock is read anew for the
    [k]-th entry examined. *)
Fixpoint anyActiveWithin (now : nat -> Z) (duration : Z) (k : nat)
    (entries : list (string * PeerState)) : bool :=
  match entries with
  | [] => false
  | (name, peer) :: rest =>
      if LastSeenActive peer && (time.Since (now k) (LastSeenAtUTC peer) <? duration)%Z
      then true
      else anyActiveWithin now duration (S k) rest
  end.

Definition HasActivePeerInTheLast (R : MapRange) (now : nat -> Z) (p : State)
    (duration : Z) : bool :=
  anyActiveWithin now duration 0 (range R (peerStatesByName p)).

(** [HasIP] *)
Definition HasIP (R : MapRange) (p : State) (ip : string) : bool :=
  existsb (fun entry => String.eqb (IP entry.2) ip) (range R (peerStatesByName p)).

(** [GetPeerStates] *)
Definition GetPeerStates (p : State) : gmap string PeerState := peerStatesByName p.

(** [PeerState{}] *)
Definition zeroPeerState : PeerState :=
  {| IP := ""; Pubkey := ""; LastSeenAtUTC := 0; LastSeenActive := false |}.

(** The loop of [GetActivePeer]: the first entry, in the order of the
    range, that was last seen active. *)
Fixpoint firstActive (entries : list (string * PeerState)) : string * PeerState * error :=
  match entries with
  | [] => ("", zeroPeerState, Some "no active peer found")
  | (name, state) :: rest =>
      if LastSeenActive state then (name, state, None) else firstActive rest
  end.

(** [GetActivePeer] *)
Definition GetActivePeer (R : MapRange) (p : State) : string * PeerState * error :=
  firstActive (range R (peerStatesByName p)).

(** [HasPeers] *)
Definition HasPeers (R : MapRange) (p : State) (ip : string) : bool :=
  existsb (fun entry => negb (String.eqb (IP entry.2) ip)) (range R (peerStatesByName p)).

End gossip.

Module gossip_examples.
Import gossip.

Definition env0 : Env :=
  {| now_at := fun k => (1000 + Z.of_nat k)%Z; range_at := fun _ => sorted_range |}.

Definition cfg2 : gmap string peers.Peer :=
  <["validator-1" := {| peers.Name := "validator-1"; peers.IP := "192.168.1.10" |}]>
  (<["validator-2" := {| peers.Name := "validator-2"; peers.IP := "192.168.1.11" |}]> ∅).

Definition st0 : State :=
  NewState {| ActivePubkey := "AP4JyZq2vuN4u64FGFHTwdG11xHu1vZWVYQj21MPLrnw";
              SelfIP := "192.168.1.10"; ConfigPeers := cfg2 |}.

Definition nodes0 : list rpc.GetClusterNodesResult :=
  [ {| rpc.Pubkey := "DJ7w4p8Ve7qdSAmkpA3sviSbsd1HPUxd43x7MTH72JHT";
       rpc.Gossip := Some "10.0.0.9:8001" |};
    {| rpc.Pubkey := "AP4JyZq2vuN4u64FGFHTwdG11xHu1vZWVYQj21MPLrnw";
       rpc.Gossip := Some "192.168.1.10:8001" |} ].

(** What [Refresh] makes of [nodes0]: the first node is at no configured
    IP, the second is at the IP of [validator-1]. *)
Definition refreshed0 : State :=
  {| PeerStatesRefreshedAt := 1002;
     peerStatesByName :=
       <["validator-1" :=
           {| IP := "192.168.1.10";
              Pubkey := "AP4JyZq2vuN4u64FGFHTwdG11xHu1vZWVYQj21MPLrnw";
              LastSeenAtUTC := 1001;
              LastSeenActive := false |}]> ∅;
     configPeers := cfg2;
     activePubkey := "AP4JyZq2vuN4u64FGFHTwdG11xHu1vZWVYQj21MPLrnw";
     selfIP := "192.168.1.10" |}.

Definition log0 : list LogLine :=
  [ {| level := WarnLevel;
       msg := "peer not found in gossip";
       keyvals := [("name", "validator-2"); ("ip", "192.168.1.11")] |} ].

(** A state in which [validator-2] was seen with the pubkey that
    [Refresh] takes for the active one, five nanoseconds before 1000. *)
Definition seenActive : PeerState :=
  {| IP := "192.168.1.11";
     Pubkey := hardcodedActivePubkey;
     LastSeenAtUTC := 995;
     LastSeenActive := true |}.

Definition st1 : State :=
  {| PeerStatesRefreshedAt := 996;
     peerStatesByName := <["validator-2" := seenActive]> ∅;
     configPeers := cfg2;
     activePubkey := "AP4JyZq2vuN4u64FGFHTwdG11xHu1vZWVYQj21MPLrnw";
     selfIP := "192.168.1.10" |}.

(** Two nodes at the IP of the only configured peer. *)
Definition stOnePeer : State :=
  NewState {| ActivePubkey := "AP4JyZq2vuN4u64FGFHTwdG11xHu1vZWVYQj21MPLrnw";
              SelfIP := "192.168.1.10";
              ConfigPeers :=
                <["validator-1" := {| peers.Name := "validator-1";
                                      peers.IP := "192.168.1.10" |}]> ∅ |}.

Definition nodesSameIP : list rpc.GetClusterNodesResult :=
  [ {| rpc.Pubkey := "DJ7w4p8Ve7qdSAmkpA3sviSbsd1HPUxd43x7MTH72JHT";
       rpc.Gossip := Some "192.168.1.10:8001" |};
    {| rpc.Pubkey := "AP4JyZq2vuN4u64FGFHTwdG11xHu1vZWVYQj21MPLrnw";
       rpc.Gossip := Some "192.168.1.10:8002" |} ].

(** A peer configured under the empty name. *)
Definition stEmptyName : State :=
  NewState {| ActivePubkey := "AP4JyZq2vuN4u64FGFHTwdG11xHu1vZWVYQj21MPLrnw";
              SelfIP := "192.168.1.10";
              ConfigPeers := <["" := {| peers.Name := ""; peers.IP := "192.168.1.10" |}]> ∅ |}.

(** A node whose gossip address is nil. *)
Definition nodesNilGossip : list rpc.GetClusterNodesResult :=
  [ {| rpc.Pubkey := "DJ7w4p8Ve7qdSAmkpA3sviSbsd1HPUxd43x7MTH72JHT";
       rpc.Gossip := None |} ].
End gossip_examples.

(** ** [internal/config/validator.go] *)

Module validator.

(** [net/url.URL], the two fields [Validate] reads. *)
Record URL : Type := { Scheme : string; Host : string }.

(** What one [http.Get] followed by [io.ReadAll] can give. *)
Inductive Fetched : Type :=
| GetFailed (err : string)
| ReadFailed (err : string)
| Body (body : string).

(** What [PublicIP] does to the outside, in order. *)
Inductive Event : Type :=
| Requested (url : string)
| Warned (message : string) (url : string).

Definition publicIPServices : list string :=
  [ "https://api.ipify.org";
    "https://checkip.amazonaws.com";
    "https://ipinfo.io/ip";
    "https://4.icanhazip.com" ].

Definition newline : ascii := "010"%char.
Definition doubleQuote : ascii := "034"%char.
Definition singleQuote : ascii := "039"%char.

(** The events of one step, then those of the rest of the run. *)
Definition after {A} (events : list Event) (r : list Event * A) : list Event * A :=
  (events ++ r.1, r.2).

(** [fmt]'s [%v] of a slice of strings. *)
Definition fmt_v (l : list string) : string :=
  "[" +:+ String.concat " " l +:+ "]".

Section Validator.
(** The libraries the file calls, as they are used here:
    [solanago.PrivateKey] with its [PublicKey()] and the base58
    [String()] of a public key; [PrivateKeyFromSolanaKeygenFile];
    [url.Parse]; the answer to the [k]-th [http.Get];
    [strings.TrimSpace]; and whether [net.ParseIP(s)] is non-nil with a
    non-nil [To4()]. *)
Context {PrivateKey PublicKey : Type}.
Context (PrivateKey_PublicKey : PrivateKey -> PublicKey).
Context (PublicKey_String : PublicKey -> string).
Context (PrivateKeyFromSolanaKeygenFile : string -> PrivateKey + string).
Context (url_Parse : string -> URL + string).
Context (http_Get : nat -> string -> Fetched).
Context (strings_TrimSpace : string -> string).
Context (net_ParseIP_To4 : string -> bool).

Record ValidatorIdentities : Type := {
  ActiveKeyPairFile : string;
  ActiveKeyPair : option PrivateKey;
  PassiveKeyPairFile : string;
  PassiveKeyPair : option PrivateKey
}.

Record Validator : Type := {
  Name : string;
  RPCURL : string;
  PublicIPServiceURLs : list string;
  Identities : ValidatorIdentities
}.

(** [ValidatorIdentities.Load]: the identities after the call and the
    error returned. *)
Definition Load (v : ValidatorIdentities) : ValidatorIdentities * error :=
  match PrivateKeyFromSolanaKeygenFile (ActiveKeyPairFile v) with
  | inr err => (v, Some ("failed to load active identity file: " +:+ err))
  | inl activeKeyPair =>
      let v1 := {| ActiveKeyPairFile := ActiveKeyPairFile v;
                   ActiveKeyPair := Some activeKeyPair;
                   PassiveKeyPairFile := PassiveKeyPairFile v;
                   PassiveKeyPair := PassiveKeyPair v |} in
      match PrivateKeyFromSolanaKeygenFile (PassiveKeyPairFile v) with
      | inr err => (v1, Some ("failed to load passive identity file: " +:+ err))
      | inl passiveKeyPair =>
          ({| ActiveKeyPairFile := ActiveKeyPairFile v;
              ActiveKeyPair := Some activeKeyPair;
              PassiveKeyPairFile := PassiveKeyPairFile v;
              PassiveKeyPair := Some passiveKeyPair |}, None)
      end
  end.

(** [ValidatorIdentities.Validate]. Both key pairs are dereferenced. *)
Definition ValidatorIdentities_Validate (v : ValidatorIdentities) : run error :=
  match ActiveKeyPair v with
  | None => Panic "invalid memory address or nil pointer dereference"
  | Some activeKeyPair =>
      match PassiveKeyPair v with
      | None => Panic "invalid memory address or nil pointer dereference"
      | Some passiveKeyPair =>
          if String.eqb (PublicKey_String (PrivateKey_PublicKey activeKeyPair))
                        (PublicKey_String (PrivateKey_PublicKey passiveKeyPair))
          then Ret (Some ("validator.identities.active and validator.identities.passive must be different: "
                          +:+ PublicKey_String (PrivateKey_PublicKey activeKeyPair)))
          else Ret None
      end
  end.

(** The loop over [PublicIPServiceURLs] in [Validator.Validate]. *)
Fixpoint validatePublicIPServiceURLs (urls : list string) : error :=
  match urls with
  | [] => None
  | publicIPServiceURL :: rest =>
      match url_Parse publicIPServiceURL with
      | inr err =>
          Some ("validator.public_ip_service_urls must be a valid URL: " +:+ err)
      | inl parsedURL =>
          if String.eqb (Scheme parsedURL) "" || String.eqb (Host parsedURL) ""
          then Some ("validator.public_ip_service_urls must be a valid URL: invalid URL "
                     +:+ publicIPServiceURL)
          else validatePublicIPServiceURLs rest
      end
  end.

(** [Validator.Validate] *)
Definition Validator_Validate (v : Validator) : run error :=
  if String.eqb (Name v) "" then Ret (Some "validator.name must be defined")
  else if String.eqb (RPCURL v) "" then Ret (Some "validator.rpc_url must be a valid URL")
  else
    match url_Parse (RPCURL v) with
    | inr err => Ret (Some ("validator.rpc_url must be a valid URL: " +:+ err))
    | inl parsedURL =>
        if String.eqb (Scheme parsedURL) "" || String.eqb (Host parsedURL) ""
        then Ret (Some ("validator.rpc_url must be a valid URL: invalid URL " +:+ RPCURL v))
        else
          match validatePublicIPServiceURLs (PublicIPServiceURLs v) with
          | Some err => Ret (Some err)
          | None =>
              match ActiveKeyPair (Identities v), PassiveKeyPair (Identities v) with
              | Some _, Some _ => ValidatorIdentities_Validate (Identities v)
              | _, _ => Ret None
              end
          end
    end.

(** [Validator.SetDefaults] *)
Definition SetDefaults (v : Validator) : Validator :=
  {| Name := Name v;
     RPCURL := if String.eqb (RPCURL v) "" then "http://localhost:8899" else RPCURL v;
     PublicIPServiceURLs :=
       if Nat.eqb (length (PublicIPServiceURLs v)) 0 then publicIPServices
       else PublicIPServiceURLs v;
     Identities := Identities v |}.

(** The candidate address taken from a response body. *)
Definition sanitize (bodyStr : string) : string :=
  let sanitizedIP := strings.SplitHead newline bodyStr in
  let sanitizedIP := strings_TrimSpace sanitizedIP in
  let sanitizedIP := strings.Trim sanitizedIP doubleQuote in
  let sanitizedIP := strings.Trim sanitizedIP singleQuote in
  sanitizedIP.

(** The loop of [PublicIP] from the [k]-th request on; [all] is the full
    list, quoted in the final error. *)
Fixpoint PublicIP_from (all : list string) (k : nat) (urls : list string)
    : list Event * (string * error) :=
  match urls with
  | [] =>
      ([], ("", Some ("failed to get public IP from any public IP service URLs: "
                      +:+ fmt_v all)))
  | publicIPServiceURL :: rest =>
      match http_Get k publicIPServiceURL with
      | GetFailed _ =>
          after [Requested publicIPServiceURL] (PublicIP_from all (S k) rest)
      | ReadFailed _ =>
          after [Requested publicIPServiceURL;
                 Warned "failed to read response body from public IP service"
                   publicIPServiceURL]
            (PublicIP_from all (S k) rest)
      | Body body =>
          let sanitizedIP := sanitize body in
          if net_ParseIP_To4 sanitizedIP
          then ([Requested publicIPServiceURL], (sanitizedIP, None))
          else
            after [Requested publicIPServiceURL;
                   Warned "invalid IPv4 address returned from public IP service"
                     publicIPServiceURL]
              (PublicIP_from all (S k) rest)
      end
  end.

(** [Validator.PublicIP] *)
Definition PublicIP (v : Validator) : list Event * (string * error) :=
  PublicIP_from (PublicIPServiceURLs v) 0 (PublicIPServiceURLs v).

End Validator.

Arguments ValidatorIdentities : clear implicits.
Arguments Validator : clear implicits.

End validator.

(** ** Role commands and their templates ([config.Role]) *)

Module hooks.

(** Modelled from the spec: the declaration of [config.Hook] is not among
    the sources at hand. A hook is [{ name, command, args, must_succeed }];
    a role has an ordered list of pre hooks and one of post hooks. *)
Record Hook : Type := {
  Name : string;
  Command : string;
  Args : list string;
  MustSucceed : bool
}.

Record Hooks : Type := { Pre : list Hook; Post : list Hook }.

End hooks.

Module role.

(** Modelled from the spec: [role.go] is not among the sources at hand,
    only its test. The variables open to a template are a closed set of
    four, held in a struct with fixed fields. *)
Record RoleCommandTemplateData : Type := {
  ActiveIdentityKeypairFile : string;
  ActiveIdentityPubkey : string;
  PassiveIdentityKeypairFile : string;
  PassiveIdentityPubkey : string
}.

Definition templateVariables : list string :=
  [ "ActiveIdentityKeypairFile"; "ActiveIdentityPubkey";
    "PassiveIdentityKeypairFile"; "PassiveIdentityPubkey" ].

(** Modelled from the spec: the value of a variable, [None] for a name
    outside the fixed set. *)
Definition fieldOf (data : RoleCommandTemplateData) (name : string) : option string :=
  if String.eqb name "ActiveIdentityKeypairFile" then Some (ActiveIdentityKeypairFile data)
  else if String.eqb name "ActiveIdentityPubkey" then Some (ActiveIdentityPubkey data)
  else if String.eqb name "PassiveIdentityKeypairFile" then Some (PassiveIdentityKeypairFile data)
  else if String.eqb name "PassiveIdentityPubkey" then Some (PassiveIdentityPubkey data)
  else None.

(** Modelled from the spec: [config.Role] is [{ command, args, hooks }]. *)
Record Role : Type := {
  Command : string;
  Args : list string;
  Hooks : hooks.Hooks
}.

(** A template is text interleaved with actions [{{ ... }}]. *)
Inductive Piece : Type :=
| Text (s : string)
| Action (body : string).

Definition consText (c : ascii) (pieces : list Piece) : list Piece :=
  match pieces with
  | Text s :: rest => Text (String c s) :: rest
  | _ => Text (String c EmptyString) :: pieces
  end.

(** Modelled from the spec: the split of a template string into its
    pieces. [mode] is [None] in text and [Some body] inside an action
    whose text so far is [body]; an action left open is a syntax error. *)
Fixpoint parse (mode : option string) (s : string) : option (list Piece) :=
  match s with
  | EmptyString =>
      match mode with
      | None => Some []
      | Some _ => None
      end
  | String c rest =>
      match mode with
      | None =>
          match rest with
          | String c' rest' =>
              if Ascii.eqb c "{" && Ascii.eqb c' "{" then parse (Some EmptyString) rest'
              else consText c <$> parse None rest
          | EmptyString => consText c <$> parse None rest
          end
      | Some body =>
          match rest with
          | String c' rest' =>
              if Ascii.eqb c "}" && Ascii.eqb c' "}"
              then cons (Action body) <$> parse None rest'
              else parse (Some (body +:+ String c EmptyString)) rest
          | EmptyString => parse (Some (body +:+ String c EmptyString)) rest
          end
      end
  end.

(** The variable an action names: [.Name], spaces around it allowed. *)
Definition variableOf (body : string) : option string :=
  match strings.Trim body " " with
  | String "." name => Some name
  | _ => None
  end.

(** Modelled from the spec: executing the pieces against the data; a
    variable outside the fixed set is a rendering error. *)
Fixpoint execute (data : RoleCommandTemplateData) (pieces : list Piece) : string + string :=
  match pieces with
  | [] => inl EmptyString
  | Text s :: rest =>
      match execute data rest with
      | inl out => inl (s +:+ out)
      | inr err => inr err
      end
  | Action body :: rest =>
      match variableOf body with
      | None => inr ("failed to execute command template: unsupported action " +:+ body)
      | Some name =>
          match fieldOf data name with
          | None => inr ("failed to execute command template: can't evaluate field " +:+ name)
          | Some value =>
              match execute data rest with
              | inl out => inl (value +:+ out)
              | inr err => inr err
              end
          end
      end
  end.

(** Modelled from the spec: [renderTemplateString]. *)
Definition renderTemplateString (data : RoleCommandTemplateData) (tmpl : string)
    : string + string :=
  match parse None tmpl with
  | None => inr "failed to parse command template"
  | Some pieces => execute data pieces
  end.

Fixpoint renderAll (data : RoleCommandTemplateData) (tmpls : list string)
    : list string + string :=
  match tmpls with
  | [] => inl []
  | tmpl :: rest =>
      match renderTemplateString data tmpl with
      | inr err => inr err
      | inl out =>
          match renderAll data rest with
          | inr err => inr err
          | inl outs => inl (out :: outs)
          end
      end
  end.

Definition renderHook (data : RoleCommandTemplateData) (h : hooks.Hook)
    : hooks.Hook + string :=
  match renderTemplateString data (hooks.Command h) with
  | inr err => inr err
  | inl command =>
      match renderAll data (hooks.Args h) with
      | inr err => inr err
      | inl args =>
          inl {| hooks.Name := hooks.Name h; hooks.Command := command;
                 hooks.Args := args; hooks.MustSucceed := hooks.MustSucceed h |}
      end
  end.

Fixpoint renderHooks (data : RoleCommandTemplateData) (hs : list hooks.Hook)
    : list hooks.Hook + string :=
  match hs with
  | [] => inl []
  | h :: rest =>
      match renderHook data h with
      | inr err => inr err
      | inl h' =>
          match renderHooks data rest with
          | inr err => inr err
          | inl hs' => inl (h' :: hs')
          end
      end
  end.

(** Modelled from the spec: [Role.RenderCommands], once at startup: the
    role with every command and argument rendered, or the rendering
    error. *)
Definition RenderCommands (data : RoleCommandTemplateData) (r : Role) : Role + string :=
  match renderTemplateString data (Command r), renderAll data (Args r) with
  | inl command, inl args =>
      match renderHooks data (hooks.Pre (Hooks r)), renderHooks data (hooks.Post (Hooks r)) with
      | inl pre, inl post =>
          inl {| Command := command; Args := args;
                 Hooks := {| hooks.Pre := pre; hooks.Post := post |} |}
      | inr err, _ | _, inr err => inr ("failed to render role.hooks: " +:+ err)
      end
  | inr err, _ | _, inr err =>
      inr ("failed to render role.command and role.args: " +:+ err)
  end.

End role.

(** ** Stand-ins for the libraries, used to run the definitions *)

Module validator_examples.
Import validator.

(** A key pair as its seed and its public key; a public key renders as
    itself. *)
Definition ToyPrivateKey : Type := string * string.
Definition toyPublicKey (k : ToyPrivateKey) : string := k.2.
Definition toyString (pk : string) : string := pk.

(** [url.Parse] on the two shapes the examples use: [scheme://host/path]
    and text without a scheme. *)
Fixpoint afterScheme (s : string) : option string :=
  match s with
  | String ":" (String "/" (String "/" rest)) => Some rest
  | String _ rest => afterScheme rest
  | EmptyString => None
  end.

Definition toyParse (u : string) : URL + string :=
  match afterScheme u with
  | Some rest =>
      inl {| Scheme := strings.SplitHead ":" u; Host := strings.SplitHead "/" rest |}
  | None => inl {| Scheme := ""; Host := "" |}
  end.

(** [strings.TrimSpace] on ASCII text. *)
Definition asciiSpace (c : ascii) : bool :=
  existsb (Ascii.eqb c) [" "; "009"; "010"; "011"; "012"; "013"]%char.

Fixpoint trimLeftSpace (s : string) : string :=
  match s with
  | EmptyString => EmptyString
  | String a rest => if asciiSpace a then trimLeftSpace rest else s
  end.

Fixpoint trimRightSpace (s : string) : string :=
  match s with
  | EmptyString => EmptyString
  | String a rest =>
      match trimRightSpace rest with
      | EmptyString => if asciiSpace a then EmptyString else String a EmptyString
      | kept => String a kept
      end
  end.

Definition asciiTrimSpace (s : string) : string := trimLeftSpace (trimRightSpace s).

(** Dotted-quad text: four decimal fields of one to three digits, each at
    most 255 and without a leading zero. *)
Fixpoint splitDots (s : string) (field : string) : list string :=
  match s with
  | EmptyString => [field]
  | String c rest =>
      if Ascii.eqb c "." then field :: splitDots rest EmptyString
      else splitDots rest (field +:+ String c EmptyString)
  end.

Definition digit (c : ascii) : option nat :=
  let n := nat_of_ascii c in
  if ((48 <=? n) && (n <=? 57))%nat then Some (n - 48) else None.

Fixpoint decimal (s : string) (acc : nat) : option nat :=
  match s with
  | EmptyString => Some acc
  | String c rest =>
      match digit c with
      | Some d => decimal rest (10 * acc + d)
      | None => None
      end
  end.

Definition octet (s : string) : bool :=
  match s with
  | EmptyString => false
  | String "0" (String _ _) => false
  | _ =>
      (String.length s <=? 3)%nat &&
      match decimal s 0 with
      | Some n => (n <=? 255)%nat
      | None => false
      end
  end.

Definition dottedQuad (s : string) : bool :=
  let fields := splitDots s EmptyString in
  (length fields =? 4)%nat && forallb octet fields.

(** Three services: the first is unreachable, the second answers with a
    page that is no address, the third with a quoted address. *)
Definition services : list string :=
  [ "https://down.example"; "https://html.example"; "https://echo.example/ip" ].

Definition answers (k : nat) (url : string) : Fetched :=
  match k with
  | 0 => GetFailed "dial tcp: connection refused"
  | 1 => Body "<html>"
  | _ => Body (String doubleQuote "203.0.113.7" +:+ String doubleQuote (String newline "ok"))
  end.

Definition identities0 : ValidatorIdentities ToyPrivateKey :=
  {| ActiveKeyPairFile := "/keys/active.json";
     ActiveKeyPair := None;
     PassiveKeyPairFile := "/keys/passive.json";
     PassiveKeyPair := None |}.

Definition loaded (active passive : ToyPrivateKey) : ValidatorIdentities ToyPrivateKey :=
  {| ActiveKeyPairFile := "/keys/active.json";
     ActiveKeyPair := Some active;
     PassiveKeyPairFile := "/keys/passive.json";
     PassiveKeyPair := Some passive |}.

Definition validator0 : Validator ToyPrivateKey :=
  {| Name := "test-validator";
     RPCURL := "http://localhost:8899";
     PublicIPServiceURLs := services;
     Identities := identities0 |}.

End validator_examples.

Module role_examples.
Import role.

Definition data0 : RoleCommandTemplateData :=
  {| ActiveIdentityKeypairFile := "/path/to/active.json";
     ActiveIdentityPubkey := "active-pubkey";
     PassiveIdentityKeypairFile := "/path/to/passive.json";
     PassiveIdentityPubkey := "passive-pubkey" |}.

Definition noHooks : hooks.Hooks := {| hooks.Pre := []; hooks.Post := [] |}.

Definition invalidRole : Role :=
  {| Command := "systemctl {{.InvalidField}}"; Args := []; Hooks := noHooks |}.

Definition goodRole : Role :=
  {| Command := "systemctl {{.ActiveIdentityPubkey}}";
     Args := ["--identity"; "{{ .ActiveIdentityKeypairFile }}"];
     Hooks := {| hooks.Pre := [ {| hooks.Name := "pre-hook";
                                   hooks.Command := "echo '{{.PassiveIdentityPubkey}}'";
                                   hooks.Args := [];
                                   hooks.MustSucceed := false |} ];
                 hooks.Post := [] |} |}.

End role_examples.

(** ** Cluster configuration ([config.Cluster]) *)

Module cluster.

(** [solanagorpc.Cluster], the two fields read here. *)
Record Known : Type := { KnownName : string; KnownRPC : string }.

Record Cluster : Type := { Name : string; RPCURLs : list string }.

Section Cluster.
(** [solanagorpc.MainNetBeta], [solanagorpc.DevNet] and
    [solanagorpc.TestNet], and [url.Parse]. *)
Context (MainNetBeta DevNet TestNet : Known).
Context (url_Parse : string -> validator.URL + string).

Definition validClusterNames : list string :=
  [KnownName MainNetBeta; KnownName DevNet; KnownName TestNet].

(** The loop over [RPCURLs] in [Cluster.Validate]. *)
Fixpoint validateRPCURLs (urls : list string) : error :=
  match urls with
  | [] => None
  | rpcURL :: rest =>
      match url_Parse rpcURL with
      | inr err => Some ("cluster.rpc_urls must be a list of valid RPC URLs: " +:+ err)
      | inl parsedURL =>
          if String.eqb (validator.Scheme parsedURL) ""
             || String.eqb (validator.Host parsedURL) ""
          then Some ("cluster.rpc_urls must be a list of valid RPC URLs: invalid URL "
                     +:+ rpcURL)
          else validateRPCURLs rest
      end
  end.

(** [Cluster.Validate] *)
Definition Validate (c : Cluster) : error :=
  if negb (slices_Contains validClusterNames (Name c))
  then Some ("cluster name must be one of " +:+ String.concat ", " validClusterNames)
  else if Nat.eqb (length (RPCURLs c)) 0
  then Some "cluster.rpc_urls must be a non-empty list of valid RPC URLs"
  else validateRPCURLs (RPCURLs c).

(** [Cluster.SetDefaults] *)
Definition SetDefaults (c : Cluster) : Cluster :=
  if Nat.eqb (length (RPCURLs c)) 0
  then
    if String.eqb (Name c) (KnownName MainNetBeta)
    then {| Name := Name c; RPCURLs := [KnownRPC MainNetBeta] |}
    else if String.eqb (Name c) (KnownName TestNet)
    then {| Name := Name c; RPCURLs := [KnownRPC TestNet] |}
    else if String.eqb (Name c) (KnownName DevNet)
    then {| Name := Name c; RPCURLs := [KnownRPC DevNet] |}
    else c
  else c.

End Cluster.

End cluster.

(** ** Prometheus configuration ([config.Prometheus]) *)

Module prometheus.

Record Prometheus : Type := {
  Port : Z;
  StaticLabels : gmap string string
}.

(** [Prometheus.Validate] *)
Definition Validate (p : Prometheus) : error :=
  if (Port p <=? 0)%Z then Some "prometheus.port must be positive and non-zero"
  else None.

(** [Prometheus.SetDefaults] *)
Definition SetDefaults (p : Prometheus) : Prometheus :=
  if (Port p =? 0)%Z then {| Port := 9090; StaticLabels := StaticLabels p |}
  else p.

End prometheus.

Module more_examples.

Definition mainnetBeta : cluster.Known :=
  {| cluster.KnownName := "mainnet-beta";
     cluster.KnownRPC := "https://api.mainnet-beta.solana.com" |}.
Definition devnet : cluster.Known :=
  {| cluster.KnownName := "devnet"; cluster.KnownRPC := "https://api.devnet.solana.com" |}.
Definition testnet : cluster.Known :=
  {| cluster.KnownName := "testnet"; cluster.KnownRPC := "https://api.testnet.solana.com" |}.

(** Reading key files: two files with distinct keys, one missing. *)
Definition toyKeygenFile (file : string) : validator_examples.ToyPrivateKey + string :=
  if String.eqb file "/keys/active.json" then inl ("seed-1", "K1")
  else if String.eqb file "/keys/passive.json" then inl ("seed-2", "K2")
  else inr ("open " +:+ file +:+ ": no such file or directory").

(** A reply in which the node at the IP of [validator-2] reports the
    pubkey that [Refresh] compares with. *)
Definition nodesActive : list rpc.GetClusterNodesResult :=
  [ {| rpc.Pubkey := gossip.hardcodedActivePubkey;
       rpc.Gossip := Some "192.168.1.11:8001" |} ].

Definition refreshedActive : gossip.State :=
  {| gossip.PeerStatesRefreshedAt := 1001;
     gossip.peerStatesByName :=
       <["validator-2" :=
           {| gossip.IP := "192.168.1.11";
              gossip.Pubkey := gossip.hardcodedActivePubkey;
              gossip.LastSeenAtUTC := 1000;
              gossip.LastSeenActive := true |}]> ∅;
     gossip.configPeers := gossip_examples.cfg2;
     gossip.activePubkey := "AP4JyZq2vuN4u64FGFHTwdG11xHu1vZWVYQj21MPLrnw";
     gossip.selfIP := "192.168.1.10" |}.

Definition logActive : list gossip.LogLine :=
  [ {| gossip.level := gossip.WarnLevel;
       gossip.msg := "peer not found in gossip";
       gossip.keyvals := [("name", "validator-1"); ("ip", "192.168.1.10")] |} ].

(** A peer configured with an IPv6 address, and a node gossiping from it. *)
Definition peerV6 : peers.Peer :=
  {| peers.Name := "validator-6"; peers.IP := "2001:db8::1" |}.

Definition stV6 : gossip.State :=
  gossip.NewState {| gossip.ActivePubkey := "AP4JyZq2vuN4u64FGFHTwdG11xHu1vZWVYQj21MPLrnw";
                     gossip.SelfIP := "2001:db8::1";
                     gossip.ConfigPeers := <["validator-6" := peerV6]> ∅ |}.

Definition nodesV6 : list rpc.GetClusterNodesResult :=
  [ {| rpc.Pubkey := "DJ7w4p8Ve7qdSAmkpA3sviSbsd1HPUxd43x7MTH72JHT";
       rpc.Gossip := Some "[2001:db8::1]:8001" |} ].

Definition refreshedV6 : gossip.State :=
  {| gossip.PeerStatesRefreshedAt := 1001;
     gossip.peerStatesByName := ∅;
     gossip.configPeers := <["validator-6" := peerV6]> ∅;
     gossip.activePubkey := "AP4JyZq2vuN4u64FGFHTwdG11xHu1vZWVYQj21MPLrnw";
     gossip.selfIP := "2001:db8::1" |}.

Definition logV6 : list gossip.LogLine :=
  [ {| gossip.level := gossip.WarnLevel;
       gossip.msg := "peer not found in gossip";
       gossip.keyvals := [("name", "validator-6"); ("ip", "2001:db8::1")] |} ].

(** A validator of which only the name is given. *)
Definition bareValidator : validator.Validator validator_examples.ToyPrivateKey :=
  {| validator.Name := "test-validator";
     validator.RPCURL := "";
     validator.PublicIPServiceURLs := [];
     validator.Identities := validator_examples.identities0 |}.

End more_examples.

(** * Properties *)

(** ** Ranging and membership *)

Lemma elem_of_range {V} (R : MapRange) (m : gmap string V) (k : string) (v : V) :
  (k, v) ∈ range R m <-> m !! k = Some v.
Proof.
  unfold range. rewrite (range_perm R V m). apply elem_of_map_to_list.
Qed.

Lemma range_empty {V} (R : MapRange) : range R (∅ : gmap string V) = [].
Proof.
  apply Permutation_nil_r. unfold range.
  rewrite (range_perm R V ∅), map_to_list_empty. reflexivity.
Qed.

Lemma slices_Contains_spec (l : list string) (x : string) :
  slices_Contains l x = true <-> x ∈ l.
Proof.
  unfold slices_Contains. rewrite existsb_exists. split.
  - intros (y & Hy & Heq). apply String.eqb_eq in Heq. subst y.
    by apply list_elem_of_In.
  - intros Hx. exists x. split; [by apply list_elem_of_In | apply String.eqb_refl].
Qed.

Module strings_facts.
Import strings.

Lemma SplitHead_no_sep sep s : occurs sep s = false -> SplitHead sep s = s.
Proof.
  induction s as [|c s IH]; simpl; [done|].
  destruct (Ascii.eqb c sep); simpl; [discriminate|].
  intros H. by rewrite IH.
Qed.

Lemma SplitHead_before_sep sep host rest :
  occurs sep host = false ->
  SplitHead sep (host +:+ String sep rest) = host.
Proof.
  induction host as [|c host IH]; simpl.
  - intros _. by rewrite Ascii.eqb_refl.
  - destruct (Ascii.eqb c sep); simpl; [discriminate|].
    intros H. by rewrite IH.
Qed.

Lemma SplitHead_free sep s : occurs sep (SplitHead sep s) = false.
Proof.
  induction s as [|c s IH]; simpl; [done|].
  destruct (Ascii.eqb c sep) eqn:Hc; simpl; [done|].
  by rewrite Hc, IH.
Qed.

End strings_facts.

(** ** [Refresh]: the loop over the returned nodes *)

Module gossip_facts.
Import gossip.

(** The IP belongs to some configured peer. *)
Definition configuredIP (cfg : gmap string peers.Peer) (ip : string) : Prop :=
  exists name peer, cfg !! name = Some peer /\ peers.IP peer = ip.

(** The observation [Refresh] builds from the node at position [i]. *)
Definition observation (E : Env) (i : nat) (node : rpc.GetClusterNodesResult)
    (gossipAddr : string) : PeerState :=
  {| IP := strings.SplitHead ":" gossipAddr;
     LastSeenAtUTC := now_at E i;
     Pubkey := rpc.Pubkey node;
     LastSeenActive := String.eqb (rpc.Pubkey node) hardcodedActivePubkey |}.

(** Every entry sits under a configured name and carries that peer's IP. *)
Definition keyedByConfig (cfg : gmap string peers.Peer)
    (latest : gmap string PeerState) : Prop :=
  forall name obs, latest !! name = Some obs ->
    exists peer, cfg !! name = Some peer /\ peers.IP peer = IP obs.

Definition carriesGossip (node : rpc.GetClusterNodesResult) : Prop :=
  is_Some (rpc.Gossip node).

Lemma Contains_GetIPs R cfg ip :
  slices_Contains (peers.GetIPs R cfg) ip = true <-> configuredIP cfg ip.
Proof.
  rewrite slices_Contains_spec. unfold peers.GetIPs, configuredIP.
  rewrite list_elem_of_fmap. split.
  - intros ([name peer] & -> & Hin). apply elem_of_range in Hin. eauto.
  - intros (name & peer & Hcfg & <-). exists (name, peer).
    split; [done | by apply elem_of_range].
Qed.

Lemma peerNameFor_cases entries ip :
  (exists peer, (peerNameFor entries ip, peer) ∈ entries /\ peers.IP peer = ip)
  \/ (peerNameFor entries ip = "" /\
      forall name peer, (name, peer) ∈ entries -> peers.IP peer <> ip).
Proof.
  induction entries as [|[name peer] rest IH]; simpl.
  - right. split; [done|]. intros ? ? H. by apply elem_of_nil in H.
  - destruct (String.eqb (peers.IP peer) ip) eqn:Heq.
    + apply String.eqb_eq in Heq. left. exists peer. split; [left | done].
    + apply String.eqb_neq in Heq. destruct IH as [(q & Hin & Hq) | [Hnone Hall]].
      * left. exists q. split; [by right | done].
      * right. split; [done|]. intros n q Hin.
        apply elem_of_cons in Hin as [[= -> ->] | Hin]; [done | eauto].
Qed.

Lemma peerNameFor_configured R cfg ip :
  peerNameFor (range R cfg) ip <> "" ->
  exists peer, cfg !! peerNameFor (range R cfg) ip = Some peer /\ peers.IP peer = ip.
Proof.
  intros Hne. destruct (peerNameFor_cases (range R cfg) ip) as [(q & Hin & Hq) | [Hnone _]].
  - exists q. split; [by apply elem_of_range in Hin | done].
  - done.
Qed.

Section scan.
Context (E : Env) (p : State).
Let cfg := configPeers p.

(** One step of the loop, in the three ways a node can fare. *)
Lemma scanNodes_unmatched i node g rest latest log :
  rpc.Gossip node = Some g ->
  ~ configuredIP cfg (strings.SplitHead ":" g) ->
  scanNodes E p i (node :: rest) latest log = scanNodes E p (S i) rest latest log.
Proof.
  intros Hg Hno. cbn [scanNodes]. rewrite Hg.
  destruct (slices_Contains _ _) eqn:Hc; [|done].
  apply Contains_GetIPs in Hc. done.
Qed.

Lemma scanNodes_matched i node g rest latest log :
  rpc.Gossip node = Some g ->
  configuredIP cfg (strings.SplitHead ":" g) ->
  let name := peerNameFor (range (range_at E (2 * i + 1)) cfg) (strings.SplitHead ":" g) in
  name <> "" ->
  scanNodes E p i (node :: rest) latest log =
    if Nat.eqb (size cfg) (size (<[name := observation E i node g]> latest))
    then Ret (<[name := observation E i node g]> latest, log)
    else scanNodes E p (S i) rest (<[name := observation E i node g]> latest) log.
Proof.
  intros Hg Hyes name Hname. cbn [scanNodes]. rewrite Hg.
  apply Contains_GetIPs with (R := range_at E (2 * i)) in Hyes.
  fold cfg. rewrite Hyes. cbn [negb].
  apply String.eqb_neq in Hname. fold cfg in name. fold name.
  rewrite Hname. reflexivity.
Qed.

(** The loop returns as soon as every node it reaches carries a gossip
    address. *)
Lemma scanNodes_returns rest : forall i latest log,
  Forall carriesGossip rest -> returned (scanNodes E p i rest latest log).
Proof.
  induction rest as [|node rest IH]; intros i latest log Hall.
  - eexists. reflexivity.
  - apply Forall_cons in Hall as [[g Hg] Hall]. cbn [scanNodes]. rewrite Hg.
    destruct (negb _); [by apply IH|].
    destruct (String.eqb _ ""); [by apply IH|].
    destruct (Nat.eqb _ _); [eexists; reflexivity | by apply IH].
Qed.

(** Only warnings are logged by the loop. *)
Lemma scanNodes_log rest : forall i latest log latest' log',
  scanNodes E p i rest latest log = Ret (latest', log') ->
  Forall (fun line => level line = WarnLevel) log ->
  Forall (fun line => level line = WarnLevel) log'.
Proof.
  induction rest as [|node rest IH]; intros i latest log latest' log' Hrun Hlog.
  - simpl in Hrun. by injection Hrun as <- <-.
  - cbn [scanNodes] in Hrun. destruct (rpc.Gossip node) as [g|]; [|done].
    destruct (negb _); [by eapply IH|].
    destruct (String.eqb _ "").
    + eapply IH; [exact Hrun|]. apply Forall_app. split; [done|].
      by apply Forall_singleton.
    + destruct (Nat.eqb _ _); [by injection Hrun as <- <- | by eapply IH].
Qed.

(** What a run of the loop that returns did with its first node. *)
Lemma scanNodes_cons_inv i node rest latest log latest' log' :
  scanNodes E p i (node :: rest) latest log = Ret (latest', log') ->
  exists g, rpc.Gossip node = Some g /\
    ((exists log1, scanNodes E p (S i) rest latest log1 = Ret (latest', log') /\
        (~ configuredIP cfg (strings.SplitHead ":" g) \/ is_Some (cfg !! "")))
     \/
     (exists name peer,
        cfg !! name = Some peer /\ peers.IP peer = strings.SplitHead ":" g /\
        ((latest' = <[name := observation E i node g]> latest /\
          size cfg = size latest')
         \/ scanNodes E p (S i) rest (<[name := observation E i node g]> latest) log
            = Ret (latest', log')))).
Proof.
  intros Hrun. cbn [scanNodes] in Hrun.
  destruct (rpc.Gossip node) as [g|]; [|done]. exists g. split; [done|].
  destruct (negb _) eqn:Hc.
  { left. exists log. split; [done|]. left.
    apply negb_true_iff in Hc. intros Hyes.
    apply Contains_GetIPs with (R := range_at E (2 * i)) in Hyes.
    fold cfg in Hyes. unfold cfg in *. congruence. }
  destruct (String.eqb _ "") eqn:Hname.
  { left. eexists. split; [exact Hrun|]. right.
    apply String.eqb_eq in Hname.
    destruct (peerNameFor_cases (range (range_at E (2 * i + 1)) (configPeers p))
                (strings.SplitHead ":" g)) as [(q & Hin & _) | [_ Hall]].
    - rewrite Hname in Hin. apply elem_of_range in Hin. by exists q.
    - apply negb_false_iff, Contains_GetIPs in Hc.
      destruct Hc as (n & q & Hq & Hip).
      exfalso. apply (Hall n q); [by apply elem_of_range | done]. }
  apply String.eqb_neq in Hname.
  destruct (peerNameFor_configured _ _ _ Hname) as (peer & Hcfg & Hip).
  right. eexists _, peer. split; [exact Hcfg|]. split; [exact Hip|].
  destruct (Nat.eqb _ _) eqn:Hsize.
  - left. apply Nat.eqb_eq in Hsize. injection Hrun as <- <-. done.
  - right. exact Hrun.
Qed.

(** Where every entry of the result comes from: it was there before, or
    it is the observation of a node of the list, stored under the name
    of a configured peer that has the node's IP. *)
Lemma scanNodes_origin rest : forall i latest log latest' log' name obs,
  scanNodes E p i rest latest log = Ret (latest', log') ->
  latest' !! name = Some obs ->
  latest !! name = Some obs \/
  exists k node g peer,
    rest !! k = Some node /\ rpc.Gossip node = Some g /\
    obs = observation E (i + k) node g /\
    cfg !! name = Some peer /\ peers.IP peer = strings.SplitHead ":" g.
Proof.
  induction rest as [|node rest IH]; intros i latest log latest' log' name obs Hrun Hlook.
  { simpl in Hrun. injection Hrun as <- <-. by left. }
  assert (Hlater : forall k node' g peer,
      rest !! k = Some node' /\ rpc.Gossip node' = Some g /\
      obs = observation E (S i + k) node' g /\
      cfg !! name = Some peer /\ peers.IP peer = strings.SplitHead ":" g ->
      exists k0 node0 g0 peer0,
        (node :: rest) !! k0 = Some node0 /\ rpc.Gossip node0 = Some g0 /\
        obs = observation E (i + k0) node0 g0 /\
        cfg !! name = Some peer0 /\ peers.IP peer0 = strings.SplitHead ":" g0).
  { intros k node' g peer H. exists (S k), node', g, peer.
    replace (i + S k) with (S i + k) by lia. exact H. }
  assert (Hhere : forall g nm peer,
      rpc.Gossip node = Some g -> cfg !! nm = Some peer ->
      peers.IP peer = strings.SplitHead ":" g ->
      <[nm := observation E i node g]> latest !! name = Some obs ->
      latest !! name = Some obs \/
      exists k0 node0 g0 peer0,
        (node :: rest) !! k0 = Some node0 /\ rpc.Gossip node0 = Some g0 /\
        obs = observation E (i + k0) node0 g0 /\
        cfg !! name = Some peer0 /\ peers.IP peer0 = strings.SplitHead ":" g0).
  { intros g nm peer Hg Hcfg Hip Hins.
    destruct (decide (nm = name)) as [-> | Hne].
    - rewrite lookup_insert_eq in Hins. injection Hins as <-.
      right. exists 0, node, g, peer. rewrite Nat.add_0_r. done.
    - rewrite lookup_insert_ne in Hins by done. by left. }
  apply scanNodes_cons_inv in Hrun as (g & Hg & [(log1 & Hrun & _) | (nm & peer & Hcfg & Hip & [[-> _] | Hrun])]).
  - destruct (IH _ _ _ _ _ _ _ Hrun Hlook) as [Hold | (k & n' & g' & q & H)];
      [by left | right; by eapply Hlater].
  - by eapply Hhere.
  - destruct (IH _ _ _ _ _ _ _ Hrun Hlook) as [Hold | (k & n' & g' & q & H)];
      [by eapply Hhere | right; by eapply Hlater].
Qed.

(** The loop keeps every entry under a configured name with that
    peer's IP. *)
Lemma scanNodes_keyedByConfig rest i latest log latest' log' :
  scanNodes E p i rest latest log = Ret (latest', log') ->
  keyedByConfig cfg latest -> keyedByConfig cfg latest'.
Proof.
  intros Hrun Hinv name obs Hlook.
  destruct (scanNodes_origin _ _ _ _ _ _ _ _ Hrun Hlook)
    as [Hold | (k & node & g & peer & _ & _ & -> & Hcfg & Hip)].
  - by apply Hinv.
  - exists peer. done.
Qed.

(** Names are never removed. *)
Lemma scanNodes_keeps rest : forall i latest log latest' log' name,
  scanNodes E p i rest latest log = Ret (latest', log') ->
  is_Some (latest !! name) -> is_Some (latest' !! name).
Proof.
  induction rest as [|node rest IH]; intros i latest log latest' log' name Hrun Hin.
  { simpl in Hrun. by injection Hrun as <- <-. }
  assert (Hins : forall nm o, is_Some (<[nm := o]> latest !! name)).
  { intros nm o. rewrite lookup_insert_is_Some. destruct (decide (nm = name)); auto. }
  apply scanNodes_cons_inv in Hrun as (g & Hg & [(log1 & Hrun & _) | (nm & peer & Hcfg & Hip & [[-> _] | Hrun])]).
  - by eapply IH.
  - apply Hins.
  - eapply IH; [exact Hrun | apply Hins].
Qed.

(** A map keyed by configured names that has as many entries as there
    are configured peers has an entry for each of them. *)
Lemma full_when_sizes_agree (latest : gmap string PeerState) name peer :
  keyedByConfig cfg latest -> size cfg = size latest ->
  cfg !! name = Some peer -> is_Some (latest !! name).
Proof.
  intros Hinv Hsize Hcfg.
  assert (Hsub : dom latest ⊆ dom cfg).
  { intros n Hn. apply elem_of_dom in Hn as [o Ho].
    destruct (Hinv n o Ho) as (q & Hq & _). apply elem_of_dom. by exists q. }
  assert (Heq : dom latest = dom cfg).
  { apply set_subseteq_size_eq; [done|]. rewrite !size_dom. lia. }
  apply elem_of_dom. rewrite Heq. apply elem_of_dom. by exists peer.
Qed.

(** Every node of the list whose IP is configured ends up with an entry
    under the name of a peer with that IP, provided no peer is keyed by
    the empty name (which the loop reads as "no peer found"). *)
Lemma scanNodes_records rest : forall i latest log latest' log' k node g,
  cfg !! "" = None ->
  keyedByConfig cfg latest ->
  scanNodes E p i rest latest log = Ret (latest', log') ->
  rest !! k = Some node -> rpc.Gossip node = Some g ->
  configuredIP cfg (strings.SplitHead ":" g) ->
  exists name peer obs,
    cfg !! name = Some peer /\ peers.IP peer = strings.SplitHead ":" g /\
    latest' !! name = Some obs /\ IP obs = strings.SplitHead ":" g.
Proof.
  intros i latest log latest' log' k node g Hnoempty Hinv Hrun Hk Hg Hyes.
  assert (Hfinal : keyedByConfig cfg latest') by by eapply scanNodes_keyedByConfig.
  assert (Hgoal : exists name peer, cfg !! name = Some peer /\
            peers.IP peer = strings.SplitHead ":" g /\ is_Some (latest' !! name)).
  { clear Hfinal. revert i latest log k Hinv Hrun Hk.
    induction rest as [|node0 rest IH]; intros i latest log k Hinv Hrun Hk; [done|].
    apply scanNodes_cons_inv in Hrun
      as (g0 & Hg0 & [(log1 & Hrun & Hwhy) | (nm & peer & Hcfg & Hip & Hrun)]).
    - destruct k as [|k]; simpl in Hk.
      + injection Hk as ->. rewrite Hg in Hg0. injection Hg0 as <-.
        destruct Hwhy as [Hno | [q Hq]]; [done | congruence].
      + by eapply IH.
    - assert (Hinv1 : keyedByConfig cfg (<[nm := observation E i node0 g0]> latest)).
      { intros n o Hn. destruct (decide (nm = n)) as [-> | Hne].
        - rewrite lookup_insert_eq in Hn. injection Hn as <-. by exists peer.
        - rewrite lookup_insert_ne in Hn by done. by apply Hinv. }
      destruct Hrun as [[-> Hsize] | Hrun].
      + destruct Hyes as (n & q & Hq & Hqip). exists n, q.
        split; [done|]. split; [done|]. by eapply full_when_sizes_agree.
      + destruct k as [|k]; simpl in Hk.
        * injection Hk as ->. rewrite Hg in Hg0. injection Hg0 as <-.
          exists nm, peer. split; [done|]. split; [done|].
          eapply scanNodes_keeps; [exact Hrun|].
          rewrite lookup_insert_eq. by eexists.
        * by eapply IH. }
  destruct Hgoal as (name & peer & Hcfg & Hip & [obs Hobs]).
  exists name, peer, obs. split; [done|]. split; [done|]. split; [done|].
  destruct (Hfinal name obs Hobs) as (q & Hq & Hqip). congruence.
Qed.

End scan.

End gossip_facts.

(** ** [Refresh] and the queries on its result *)

Module refresh_facts.
Import gossip gossip_facts.

(** The state with other observations and another refresh time. *)
Definition withObservations (p : State) (m : gmap string PeerState) (t : Z) : State :=
  {| PeerStatesRefreshedAt := t;
     peerStatesByName := m;
     configPeers := configPeers p;
     activePubkey := activePubkey p;
     selfIP := selfIP p |}.

(** The clock reading that [Refresh] stores as the refresh time. *)
Definition refreshReading (reply : list rpc.GetClusterNodesResult * error) : nat :=
  match reply.2 with
  | Some _ => 0
  | None => length reply.1
  end.

Definition missingWarning (name : string) (peer : peers.Peer) : LogLine :=
  {| level := WarnLevel;
     msg := "peer not found in gossip";
     keyvals := [("name", name); ("ip", peers.IP peer)] |}.

Lemma scanNodes_config E p1 p2 rest : forall i latest log,
  configPeers p1 = configPeers p2 ->
  scanNodes E p1 i rest latest log = scanNodes E p2 i rest latest log.
Proof.
  induction rest as [|node rest IH]; intros i latest log Hcfg; [done|].
  cbn [scanNodes]. rewrite Hcfg.
  destruct (rpc.Gossip node); [|done].
  destruct (negb _); [by apply IH|].
  destruct (String.eqb _ ""); [by apply IH|].
  destruct (Nat.eqb _ _); [done | by apply IH].
Qed.

Lemma Refresh_returns E p nodes err :
  Forall carriesGossip nodes -> returned (Refresh E p (nodes, err)).
Proof.
  intros Hall. unfold Refresh. destruct err as [e|]; [eexists; reflexivity|].
  destruct (scanNodes_returns E p nodes 0 ∅ [] Hall) as [[latest log] ->].
  eexists. reflexivity.
Qed.

(** A run of [Refresh] that returns, taken apart. *)
Lemma Refresh_ok_inv E p nodes p' log :
  Refresh E p (nodes, None) = Ret (p', log) ->
  exists log0,
    scanNodes E p 0 nodes ∅ [] = Ret (peerStatesByName p', log0) /\
    log = log0 ++ warnMissing (range (range_at E (2 * length nodes)) (configPeers p))
                    (peerStatesByName p') /\
    PeerStatesRefreshedAt p' = now_at E (length nodes) /\
    configPeers p' = configPeers p /\
    activePubkey p' = activePubkey p /\ selfIP p' = selfIP p.
Proof.
  unfold Refresh. destruct (scanNodes E p 0 nodes ∅ []) as [[latest log0]|]; [|done].
  intros [= <- <-]. by exists log0.
Qed.

Lemma warnMissing_complete entries (latest : gmap string PeerState) name peer :
  (name, peer) ∈ entries -> latest !! name = None ->
  missingWarning name peer ∈ warnMissing entries latest.
Proof.
  induction entries as [|[n q] rest IH]; intros Hin Hnone.
  - by apply elem_of_nil in Hin.
  - simpl. apply elem_of_cons in Hin as [[= <- <-] | Hin].
    + rewrite Hnone. left.
    + destruct (latest !! n); [by apply IH | right; by apply IH].
Qed.

Lemma warnMissing_level entries (latest : gmap string PeerState) :
  Forall (fun line => level line = WarnLevel) (warnMissing entries latest).
Proof.
  induction entries as [|[n q] rest IH]; simpl; [constructor|].
  destruct (latest !! n); [done | by constructor].
Qed.

Lemma anyActiveWithin_iff now d entries : forall k,
  anyActiveWithin now d k entries = true <->
  exists j name obs, entries !! j = Some (name, obs) /\
    LastSeenActive obs = true /\
    (time.Since (now (k + j)%nat) (LastSeenAtUTC obs) < d)%Z.
Proof.
  induction entries as [|[name obs] rest IH]; intros k; simpl.
  - split; [done | by intros (j & ? & ? & ? & _)].
  - destruct (LastSeenActive obs && _) eqn:Hhere.
    + split; [intros _ | done].
      apply andb_true_iff in Hhere as [Ha Hd]. apply Z.ltb_lt in Hd.
      exists 0, name, obs. by rewrite Nat.add_0_r.
    + rewrite IH. split.
      * intros (j & n & o & Hj & Ha & Hd). exists (S j), n, o.
        by replace (k + S j) with (S k + j) by lia.
      * intros ([|j] & n & o & Hj & Ha & Hd); simpl in Hj.
        -- injection Hj as <- <-. rewrite Nat.add_0_r in Hd.
           apply Z.ltb_lt in Hd. rewrite Ha, Hd in Hhere. done.
        -- exists j, n, o. by replace (S k + j) with (k + S j) by lia.
Qed.

Lemma Since_exact now t :
  (time.minDuration <= now - t <= time.maxDuration)%Z -> time.Since now t = (now - t)%Z.
Proof.
  intros [Hlo Hhi]. unfold time.Since, time.Sub.
  destruct (Z.ltb_spec (now - t) time.minDuration); [lia|].
  destruct (Z.ltb_spec time.maxDuration (now - t)); [lia | done].
Qed.

(** Above the least duration the saturated comparison is the one on the
    exact difference of the instants. *)
Lemma Since_lt_exact now t d :
  (time.minDuration < d <= time.maxDuration)%Z ->
  (time.Since now t < d)%Z <-> (now - t < d)%Z.
Proof.
  intros [Hlo Hhi]. unfold time.Since, time.Sub.
  destruct (Z.ltb_spec (now - t) time.minDuration);
    [|destruct (Z.ltb_spec time.maxDuration (now - t))]; lia.
Qed.

(** C3: when the cluster-directory call fails, [Refresh] returns normally
    with an empty observation map and the refresh time set to the current
    clock reading; the failure only reaches the log, and the queries on
    the new state report no active peer. *)
Theorem Refresh_rpc_failure E p nodes e :
  exists p',
    Refresh E p (nodes, Some e) =
      Ret (p', [ {| level := ErrorLevel; msg := "failed to get cluster nodes";
                    keyvals := [("error", e)] |} ]) /\
    peerStatesByName p' = ∅ /\
    PeerStatesRefreshedAt p' = now_at E 0 /\
    (forall R, HasActivePeer R p' = false) /\
    (forall R now d, HasActivePeerInTheLast R now p' d = false).
Proof.
  eexists. split; [reflexivity|]. cbn [peerStatesByName PeerStatesRefreshedAt].
  split; [done|]. split; [done|]. split.
  - intros R. unfold HasActivePeer. cbn [peerStatesByName]. by rewrite range_empty.
  - intros R now d. unfold HasActivePeerInTheLast. cbn [peerStatesByName].
    by rewrite range_empty.
Qed.

(** C5: [HasActivePeerInTheLast d] is true exactly when some observation
    of the current map was last seen active and less than [d] before the
    current time; without such an observation it is false. *)
Theorem HasActivePeerInTheLast_iff R now p d :
  (HasActivePeerInTheLast R (fun _ => now) p d = true <->
   exists name obs, peerStatesByName p !! name = Some obs /\
     LastSeenActive obs = true /\ (time.Since now (LastSeenAtUTC obs) < d)%Z)
  /\
  (HasActivePeerInTheLast R (fun _ => now) p d = false <->
   forall name obs, peerStatesByName p !! name = Some obs ->
     LastSeenActive obs = true -> (d <= time.Since now (LastSeenAtUTC obs))%Z).
Proof.
  assert (Hiff : HasActivePeerInTheLast R (fun _ => now) p d = true <->
    exists name obs, peerStatesByName p !! name = Some obs /\
      LastSeenActive obs = true /\ (time.Since now (LastSeenAtUTC obs) < d)%Z).
  { unfold HasActivePeerInTheLast. rewrite anyActiveWithin_iff. split.
    - intros (j & name & obs & Hj & Ha & Hd). exists name, obs.
      split; [|done]. apply elem_of_range with (R := R).
      apply list_elem_of_lookup. by exists j.
    - intros (name & obs & Hlook & Ha & Hd).
      apply elem_of_range with (R := R) in Hlook.
      apply list_elem_of_lookup in Hlook as [j Hj]. by exists j, name, obs. }
  split; [exact Hiff|].
  rewrite <- not_true_iff_false, Hiff. split.
  - intros Hno name obs Hlook Ha.
    destruct (Z.le_gt_cases d (time.Since now (LastSeenAtUTC obs))) as [|Hlt]; [done|].
    exfalso. apply Hno. by exists name, obs.
  - intros Hall (name & obs & Hlook & Ha & Hd). specialize (Hall name obs Hlook Ha). lia.
Qed.

(** C9: [Refresh] returns whenever the call to the directory failed or
    every node carries a gossip address, and in every state it returns each
    key of the observation map is the name of a configured peer and the
    observation under it carries that peer's IP; the configured peers
    themselves are untouched. *)
Theorem Refresh_keyedByConfig E p reply :
  (is_Some reply.2 \/ Forall carriesGossip reply.1 -> returned (Refresh E p reply)) /\
  (forall p' log, Refresh E p reply = Ret (p', log) ->
     configPeers p' = configPeers p /\
     forall name obs, peerStatesByName p' !! name = Some obs ->
       exists peer, configPeers p !! name = Some peer /\ IP obs = peers.IP peer).
Proof.
  destruct reply as [nodes err]. cbn [fst snd]. split.
  - intros [[e ->] | Hall]; [eexists; reflexivity | by apply Refresh_returns].
  - intros p' log Hrun. destruct err as [e|].
    + unfold Refresh in Hrun. injection Hrun as <- <-. split; [done|].
      intros name obs. cbn [peerStatesByName]. by rewrite lookup_empty.
    + apply Refresh_ok_inv in Hrun as (log0 & Hscan & _ & _ & Hcfg & _).
      split; [done|]. intros name obs Hlook.
      assert (Hk : keyedByConfig (configPeers p) (peerStatesByName p')).
      { eapply scanNodes_keyedByConfig; [exact Hscan|]. intros n o. by rewrite lookup_empty. }
      destruct (Hk name obs Hlook) as (peer & Hpeer & Hip). by exists peer.
Qed.

(** C2: for a list of nodes that each carry a gossip address, [Refresh]
    returns. The host of a node is the text before the first colon of its
    gossip address. A node whose host is a configured IP is recorded under
    the name of a configured peer with that IP (the names being non-empty:
    the loop reads the empty name as "no peer found"); every entry of the
    map is the observation of such a node; a node whose host is no
    configured IP never enters the map; a configured peer whose IP is the
    host of no node has no entry, and a peer without an entry costs one
    warning, nothing in the log being above warning level. *)
Theorem Refresh_matching E p nodes :
  Forall carriesGossip nodes ->
  exists p' log,
    Refresh E p (nodes, None) = Ret (p', log) /\
    (forall host rest, strings.occurs ":" host = false ->
       strings.SplitHead ":" (host +:+ String ":" rest) = host) /\
    (configPeers p !! "" = None ->
     forall node g, node ∈ nodes -> rpc.Gossip node = Some g ->
       configuredIP (configPeers p) (strings.SplitHead ":" g) ->
       exists name peer obs,
         configPeers p !! name = Some peer /\
         peers.IP peer = strings.SplitHead ":" g /\
         peerStatesByName p' !! name = Some obs /\
         IP obs = strings.SplitHead ":" g) /\
    (forall name obs, peerStatesByName p' !! name = Some obs ->
       exists k node g peer,
         nodes !! k = Some node /\ rpc.Gossip node = Some g /\
         obs = observation E k node g /\
         configPeers p !! name = Some peer /\
         peers.IP peer = strings.SplitHead ":" g) /\
    (forall node g, node ∈ nodes -> rpc.Gossip node = Some g ->
       ~ configuredIP (configPeers p) (strings.SplitHead ":" g) ->
       forall name obs, peerStatesByName p' !! name = Some obs ->
         IP obs <> strings.SplitHead ":" g) /\
    (forall name peer, configPeers p !! name = Some peer ->
       ((forall node g, node ∈ nodes -> rpc.Gossip node = Some g ->
           strings.SplitHead ":" g <> peers.IP peer) ->
        peerStatesByName p' !! name = None) /\
       (peerStatesByName p' !! name = None -> missingWarning name peer ∈ log)) /\
    Forall (fun line => level line = WarnLevel) log.
Proof.
  intros Hgossip.
  destruct (Refresh_returns E p nodes None Hgossip) as [[p' log] Hrun].
  exists p', log. split; [exact Hrun|].
  apply Refresh_ok_inv in Hrun as (log0 & Hscan & -> & _ & _ & _ & _).
  assert (Hempty : keyedByConfig (configPeers p) ∅).
  { intros n o. by rewrite lookup_empty. }
  assert (Hkeyed : keyedByConfig (configPeers p) (peerStatesByName p'))
    by by eapply scanNodes_keyedByConfig.
  split; [apply strings_facts.SplitHead_before_sep|].
  split; [|split; [|split; [|split]]].
  - intros Hnamed node g Hin Hg Hyes. apply list_elem_of_lookup in Hin as [k Hk].
    exact (scanNodes_records E p nodes 0 ∅ [] _ _ k node g Hnamed Hempty Hscan Hk Hg Hyes).
  - intros name obs Hlook.
    destruct (scanNodes_origin _ _ _ _ _ _ _ _ _ _ Hscan Hlook)
      as [Hold | (k & node & g & peer & H)]; [by rewrite lookup_empty in Hold|].
    by exists k, node, g, peer.
  - intros node g _ _ Hno name obs Hlook Hip.
    destruct (Hkeyed name obs Hlook) as (peer & Hpeer & Hpip).
    apply Hno. exists name, peer. split; [done | congruence].
  - intros name peer Hcfg. split.
    + intros Habsent. destruct (peerStatesByName p' !! name) as [obs|] eqn:Hlook; [|done].
      destruct (scanNodes_origin _ _ _ _ _ _ _ _ _ _ Hscan Hlook)
        as [Hold | (k & node & g & q & Hk & Hg & _ & Hq & Hip)];
        [by rewrite lookup_empty in Hold|].
      exfalso. apply (Habsent node g); [by eapply list_elem_of_lookup_2 | done | congruence].
    + intros Hnone. apply elem_of_app. right.
      apply warnMissing_complete; [by apply elem_of_range | done].
  - apply Forall_app. split; [|apply warnMissing_level].
    eapply scanNodes_log; [exact Hscan | constructor].
Qed.

(** C4: [Refresh] builds the new map from the reply alone. Its result does
    not depend on the observations or the refresh time held before; it
    returns whenever every node carries a gossip address; and in the state
    it returns, the refresh time is the current clock reading and every
    observation is that of a node of this reply. *)
Theorem Refresh_replaces E p reply :
  (forall m0 t0, Refresh E (withObservations p m0 t0) reply = Refresh E p reply) /\
  (Forall carriesGossip reply.1 -> returned (Refresh E p reply)) /\
  (forall p' log, Refresh E p reply = Ret (p', log) ->
     PeerStatesRefreshedAt p' = now_at E (refreshReading reply) /\
     forall name obs, peerStatesByName p' !! name = Some obs ->
       reply.2 = None /\
       exists k node g,
         reply.1 !! k = Some node /\ rpc.Gossip node = Some g /\
         obs = observation E k node g).
Proof.
  destruct reply as [nodes err]. split; [|split].
  - intros m0 t0. unfold Refresh. destruct err as [e|]; [done|].
    by rewrite (scanNodes_config E (withObservations p m0 t0) p).
  - apply Refresh_returns.
  - intros p' log Hrun. destruct err as [e|].
    + unfold Refresh in Hrun. injection Hrun as <- <-. split; [done|].
      intros name obs. cbn [peerStatesByName]. by rewrite lookup_empty.
    + apply Refresh_ok_inv in Hrun as (log0 & Hscan & _ & Hts & _).
      split; [exact Hts|]. intros name obs Hlook. split; [done|].
      destruct (scanNodes_origin _ _ _ _ _ _ _ _ _ _ Hscan Hlook)
        as [Hold | (k & node & g & peer & Hk & Hg & Hobs & _)];
        [by rewrite lookup_empty in Hold|].
      by exists k, node, g.
Qed.

(** What the comparison in [Refresh] amounts to: an observation is marked
    active exactly when its pubkey is the literal written in the source. *)
Lemma Refresh_isActive_literal E p reply p' log name obs :
  Refresh E p reply = Ret (p', log) ->
  peerStatesByName p' !! name = Some obs ->
  LastSeenActive obs = true <-> Pubkey obs = hardcodedActivePubkey.
Proof.
  destruct reply as [nodes [e|]]; intros Hrun Hlook.
  - unfold Refresh in Hrun. injection Hrun as <- <-.
    cbn [peerStatesByName] in Hlook. by rewrite lookup_empty in Hlook.
  - apply Refresh_ok_inv in Hrun as (log0 & Hscan & _).
    destruct (scanNodes_origin _ _ _ _ _ _ _ _ _ _ Hscan Hlook)
      as [Hold | (k & node & g & peer & _ & _ & -> & _)];
      [by rewrite lookup_empty in Hold|].
    unfold observation. cbn [LastSeenActive Pubkey]. apply String.eqb_eq.
Qed.

Example Refresh_st0 :
  Refresh gossip_examples.env0 gossip_examples.st0 (gossip_examples.nodes0, None)
  = Ret (gossip_examples.refreshed0, gossip_examples.log0).
Proof. vm_compute. reflexivity. Qed.

Example nodes0_carry_gossip : Forall carriesGossip gossip_examples.nodes0.
Proof. repeat constructor; eexists; reflexivity. Qed.

(** C1 fails on the code: the node at the IP of [validator-1] reports the
    configured active pubkey, and its observation is not marked active. *)
Theorem Refresh_active_pubkey_not_compared :
  exists p' log obs,
    Refresh gossip_examples.env0 gossip_examples.st0 (gossip_examples.nodes0, None)
      = Ret (p', log) /\
    peerStatesByName p' !! "validator-1" = Some obs /\
    Pubkey obs = activePubkey gossip_examples.st0 /\
    LastSeenActive obs = false.
Proof.
  exists gossip_examples.refreshed0, gossip_examples.log0. eexists.
  split; [vm_compute; reflexivity|].
  split; [vm_compute; reflexivity|]. split; reflexivity.
Qed.

Lemma Refresh_matching_witness :
  Forall carriesGossip gossip_examples.nodes0 /\
  exists p' log,
    Refresh gossip_examples.env0 gossip_examples.st0 (gossip_examples.nodes0, None)
      = Ret (p', log) /\
    Forall (fun line => level line = WarnLevel) log.
Proof.
  assert (H1 : Forall carriesGossip gossip_examples.nodes0)
    by (repeat constructor; eexists; reflexivity).
  split; [exact H1|].
  destruct (Refresh_matching gossip_examples.env0 gossip_examples.st0
              gossip_examples.nodes0 H1)
    as (p' & log & Hrun & _ & _ & _ & _ & _ & Hlevel).
  exists p', log. split; [exact Hrun | exact Hlevel].
Defined.

Lemma Refresh_replaces_witness :
  Forall carriesGossip gossip_examples.nodes0 /\
  returned (Refresh gossip_examples.env0 gossip_examples.st0
              (gossip_examples.nodes0, None)).
Proof.
  assert (H1 : Forall carriesGossip gossip_examples.nodes0)
    by (repeat constructor; eexists; reflexivity).
  split; [exact H1|].
  destruct (Refresh_replaces gossip_examples.env0 gossip_examples.st0
              (gossip_examples.nodes0, None)) as (_ & Hret & _).
  exact (Hret H1).
Defined.

Lemma Refresh_keyedByConfig_witness :
  Refresh gossip_examples.env0 gossip_examples.st0 (gossip_examples.nodes0, None)
    = Ret (gossip_examples.refreshed0, gossip_examples.log0) /\
  forall name obs, peerStatesByName gossip_examples.refreshed0 !! name = Some obs ->
    exists peer,
      configPeers gossip_examples.st0 !! name = Some peer /\ IP obs = peers.IP peer.
Proof.
  assert (Hrun : Refresh gossip_examples.env0 gossip_examples.st0
                   (gossip_examples.nodes0, None)
                 = Ret (gossip_examples.refreshed0, gossip_examples.log0))
    by (vm_compute; reflexivity).
  split; [exact Hrun|].
  exact (proj2 (proj2 (Refresh_keyedByConfig _ _ _) _ _ Hrun)).
Defined.

Lemma HasActivePeerInTheLast_iff_witness :
  HasActivePeerInTheLast sorted_range (fun _ => 1000%Z) gossip_examples.st1 10 = true /\
  HasActivePeerInTheLast reversed_range (fun _ => 1000%Z) gossip_examples.st1 5 = false.
Proof.
  split.
  - apply (proj1 (HasActivePeerInTheLast_iff sorted_range 1000 gossip_examples.st1 10)).
    exists "validator-2", gossip_examples.seenActive.
    split; [vm_compute; reflexivity|]. split; [reflexivity | vm_compute; reflexivity].
  - apply (proj2 (HasActivePeerInTheLast_iff reversed_range 1000 gossip_examples.st1 5)).
    intros name obs Hlook _.
    destruct (decide (name = "validator-2")) as [-> | Hne].
    + assert (Hobs : obs = gossip_examples.seenActive).
      { change (peerStatesByName gossip_examples.st1)
          with (<["validator-2" := gossip_examples.seenActive]>
                  (∅ : gmap string PeerState)) in Hlook.
        rewrite lookup_insert_eq in Hlook. congruence. }
      rewrite Hobs. vm_compute. discriminate.
    + change (peerStatesByName gossip_examples.st1)
        with (<["validator-2" := gossip_examples.seenActive]>
                (∅ : gmap string PeerState)) in Hlook.
      rewrite lookup_insert_ne, lookup_empty in Hlook by done. done.
Defined.

(** Once every configured peer has an entry the loop stops: of two nodes
    at one IP the first is kept. *)
Example Refresh_stops_when_full :
  exists p' log,
    Refresh gossip_examples.env0 gossip_examples.stOnePeer
      (gossip_examples.nodesSameIP, None) = Ret (p', log) /\
    log = [] /\
    peerStatesByName p' !! "validator-1" =
      Some {| IP := "192.168.1.10";
              Pubkey := "DJ7w4p8Ve7qdSAmkpA3sviSbsd1HPUxd43x7MTH72JHT";
              LastSeenAtUTC := 1000;
              LastSeenActive := false |}.
Proof.
  eexists _, _. split; [vm_compute; reflexivity|].
  split; [reflexivity | vm_compute; reflexivity].
Qed.

(** The empty name is the loop's mark for "no peer found": a node at the IP
    of a peer configured under it is passed over with a warning. *)
Example Refresh_empty_name_passed_over :
  exists p',
    Refresh gossip_examples.env0 gossip_examples.stEmptyName
      (gossip_examples.nodes0, None)
    = Ret (p', [ {| level := WarnLevel; msg := "peer not found in config";
                    keyvals := [("ip", "192.168.1.10")] |};
                 {| level := WarnLevel; msg := "peer not found in gossip";
                    keyvals := [("name", ""); ("ip", "192.168.1.10")] |} ]) /\
    peerStatesByName p' = ∅.
Proof. eexists. split; [vm_compute; reflexivity | vm_compute; reflexivity]. Qed.

(** A node without a gossip address stops the run at the dereference. *)
Example Refresh_nil_gossip :
  Refresh gossip_examples.env0 gossip_examples.st0 (gossip_examples.nodesNilGossip, None)
  = Panic "invalid memory address or nil pointer dereference".
Proof. reflexivity. Qed.

Example Refresh_drops_earlier_observations :
  Refresh gossip_examples.env0 gossip_examples.st1 (gossip_examples.nodes0, None)
  = Ret (gossip_examples.refreshed0, gossip_examples.log0).
Proof. vm_compute. reflexivity. Qed.

End refresh_facts.

(** ** [validator.go]: identities, validation, public IP *)

Module validator_facts.
Import validator.

Section identities.
Context {PrivateKey PublicKey : Type}.
Context (PrivateKey_PublicKey : PrivateKey -> PublicKey).
Context (PublicKey_String : PublicKey -> string).
Context (url_Parse : string -> URL + string).

(** Base58 renders distinct keys as distinct strings. *)
Hypothesis String_injective :
  forall a b, PublicKey_String a = PublicKey_String b -> a = b.

Abbreviation IdentitiesValidate :=
  (ValidatorIdentities_Validate PrivateKey_PublicKey PublicKey_String).
Abbreviation Validate :=
  (Validator_Validate PrivateKey_PublicKey PublicKey_String url_Parse).

(** The URL parses and has a scheme and a host. *)
Definition validURL (u : string) : Prop :=
  exists parsed, url_Parse u = inl parsed /\ Scheme parsed <> "" /\ Host parsed <> "".

Lemma validatePublicIPServiceURLs_valid urls :
  Forall validURL urls -> validatePublicIPServiceURLs url_Parse urls = None.
Proof.
  induction 1 as [|u urls (parsed & Hparse & Hs & Hh) _ IH]; simpl; [done|].
  rewrite Hparse. apply String.eqb_neq in Hs, Hh. by rewrite Hs, Hh.
Qed.

(** C7: with both key pairs loaded, [ValidatorIdentities.Validate]
    returns an error exactly when the two public keys are equal, and
    returns nil when they differ. *)
Theorem ValidatorIdentities_Validate_iff (v : ValidatorIdentities PrivateKey) a b :
  ActiveKeyPair v = Some a -> PassiveKeyPair v = Some b ->
  ((exists msg, IdentitiesValidate v = Ret (Some msg)) <->
   PrivateKey_PublicKey a = PrivateKey_PublicKey b) /\
  (PrivateKey_PublicKey a <> PrivateKey_PublicKey b -> IdentitiesValidate v = Ret None).
Proof using String_injective.
  intros Ha Hb. unfold ValidatorIdentities_Validate. rewrite Ha, Hb.
  destruct (String.eqb_spec (PublicKey_String (PrivateKey_PublicKey a))
                            (PublicKey_String (PrivateKey_PublicKey b))) as [Heq | Hne].
  - apply String_injective in Heq. split; [|done]. split; [done | by eexists].
  - assert (PrivateKey_PublicKey a <> PrivateKey_PublicKey b) by congruence.
    split; [|done]. split; [by intros [msg [=]] | done].
Qed.

(** C10: for a validator with a name, a valid RPC URL and valid
    public-IP service URLs, [Validator.Validate] returns nil as soon as
    a key pair is not loaded, whatever the other one is; only with both
    loaded is the answer that of the identity check. *)
Theorem Validator_Validate_identities_gate (v : Validator PrivateKey) :
  Name v <> "" -> RPCURL v <> "" -> validURL (RPCURL v) ->
  Forall validURL (PublicIPServiceURLs v) ->
  (ActiveKeyPair (Identities v) = None \/ PassiveKeyPair (Identities v) = None ->
   Validate v = Ret None) /\
  (forall a b, ActiveKeyPair (Identities v) = Some a ->
               PassiveKeyPair (Identities v) = Some b ->
               Validate v = IdentitiesValidate (Identities v)).
Proof.
  intros Hname Hrpc (parsed & Hparse & Hs & Hh) Hurls.
  unfold Validator_Validate.
  apply String.eqb_neq in Hname, Hrpc, Hs, Hh.
  rewrite Hname, Hrpc, Hparse, Hs, Hh. cbn [orb].
  rewrite (validatePublicIPServiceURLs_valid _ Hurls). split.
  - intros [Hnone | Hnone]; rewrite Hnone; [done|].
    by destruct (ActiveKeyPair (Identities v)).
  - intros a b Ha Hb. by rewrite Ha, Hb.
Qed.

End identities.

Section publicIP.
Context {PrivateKey : Type}.
Context (http_Get : nat -> string -> Fetched).
Context (strings_TrimSpace : string -> string).
Context (net_ParseIP_To4 : string -> bool).

Abbreviation sanitized := (sanitize strings_TrimSpace).
Abbreviation loop := (PublicIP_from http_Get strings_TrimSpace net_ParseIP_To4).

(** The [k]-th request, sent to [url], yields an acceptable address. *)
Definition accepted (k : nat) (url : string) : bool :=
  match http_Get k url with
  | Body body => net_ParseIP_To4 (sanitized body)
  | _ => false
  end.

(** The URLs requested, in the order of the requests. *)
Fixpoint requested (events : list Event) : list string :=
  match events with
  | [] => []
  | Requested url :: rest => url :: requested rest
  | Warned _ _ :: rest => requested rest
  end.

Lemma loop_cons_rejected all k url rest :
  accepted k url = false ->
  (loop all k (url :: rest)).2 = (loop all (S k) rest).2 /\
  requested (loop all k (url :: rest)).1 = url :: requested (loop all (S k) rest).1.
Proof.
  unfold accepted. cbn [PublicIP_from].
  destruct (http_Get k url) as [e|e|body]; [done | done |].
  intros ->. done.
Qed.

Lemma loop_cons_accepted all k url rest body :
  http_Get k url = Body body -> net_ParseIP_To4 (sanitized body) = true ->
  loop all k (url :: rest) = ([Requested url], (sanitized body, None)).
Proof. intros Hget Hok. cbn [PublicIP_from]. by rewrite Hget, Hok. Qed.

Lemma loop_first_accepted all urls : forall k0 k url body,
  urls !! k = Some url -> http_Get (k0 + k) url = Body body ->
  net_ParseIP_To4 (sanitized body) = true ->
  (forall j url', j < k -> urls !! j = Some url' -> accepted (k0 + j) url' = false) ->
  (loop all k0 urls).2 = (sanitized body, None) /\
  requested (loop all k0 urls).1 = take (S k) urls.
Proof.
  induction urls as [|u urls IH]; intros k0 k url body Hk Hget Hok Hbefore; [done|].
  destruct k as [|k]; simpl in Hk.
  - injection Hk as ->. rewrite Nat.add_0_r in Hget.
    by rewrite (loop_cons_accepted _ _ _ _ _ Hget Hok).
  - assert (Hrej : accepted k0 u = false).
    { rewrite <- (Nat.add_0_r k0). apply Hbefore; [lia | done]. }
    destruct (loop_cons_rejected all k0 u urls Hrej) as [-> ->].
    replace (k0 + S k) with (S k0 + k) in Hget by lia.
    destruct (IH (S k0) k url body Hk Hget Hok) as [-> ->]; [|done].
    intros j url' Hj Hlook. replace (S k0 + j) with (k0 + S j) by lia.
    apply Hbefore; [lia | done].
Qed.

Lemma loop_none_accepted all urls : forall k0,
  (forall k url, urls !! k = Some url -> accepted (k0 + k) url = false) ->
  (loop all k0 urls).2 =
    ("", Some ("failed to get public IP from any public IP service URLs: "
               +:+ fmt_v all)) /\
  requested (loop all k0 urls).1 = urls.
Proof.
  induction urls as [|u urls IH]; intros k0 Hall; [done|].
  assert (Hrej : accepted k0 u = false).
  { rewrite <- (Nat.add_0_r k0). by apply Hall. }
  destruct (loop_cons_rejected all k0 u urls Hrej) as [-> ->].
  destruct (IH (S k0)) as [-> ->]; [|done].
  intros k url Hlook. replace (S k0 + k) with (k0 + S k) by lia. by apply Hall.
Qed.

Lemma loop_nil_error_iff all urls : forall k0,
  (loop all k0 urls).2.2 = None <->
  exists k url, urls !! k = Some url /\ accepted (k0 + k) url = true.
Proof.
  induction urls as [|u urls IH]; intros k0.
  - split; [done | by intros (k & url & ? & _)].
  - destruct (accepted k0 u) eqn:Hacc.
    + split; [intros _ | intros _].
      * exists 0, u. by rewrite Nat.add_0_r.
      * unfold accepted in Hacc. destruct (http_Get k0 u) as [e|e|body] eqn:Hget; [done..|].
        by rewrite (loop_cons_accepted _ _ _ _ _ Hget Hacc).
    + destruct (loop_cons_rejected all k0 u urls Hacc) as [-> _]. rewrite IH. split.
      * intros (k & url & Hlook & Hk). exists (S k), url.
        by replace (k0 + S k) with (S k0 + k) by lia.
      * intros ([|k] & url & Hlook & Hk); simpl in Hlook.
        -- injection Hlook as ->. rewrite Nat.add_0_r in Hk. congruence.
        -- exists k, url. by replace (S k0 + k) with (k0 + S k) by lia.
Qed.

(** C6: [PublicIP] asks the services in the order of the list. The
    first one whose body gives, from its first line trimmed of
    whitespace and then of double and of single quotes, text that
    parses as an IPv4 address decides the answer: that text, with a nil
    error, and no later service is asked. If no service does, every
    one has been asked and the answer is the empty string with an
    error. *)
Theorem PublicIP_first_valid (v : Validator PrivateKey) :
  let answer := PublicIP http_Get strings_TrimSpace net_ParseIP_To4 v in
  let urls := PublicIPServiceURLs v in
  (forall body, sanitized body =
     strings.Trim (strings.Trim (strings_TrimSpace (strings.SplitHead newline body))
                     doubleQuote) singleQuote) /\
  (forall k url body,
     urls !! k = Some url -> http_Get k url = Body body ->
     net_ParseIP_To4 (sanitized body) = true ->
     (forall j url', j < k -> urls !! j = Some url' -> accepted j url' = false) ->
     answer.2 = (sanitized body, None) /\ requested answer.1 = take (S k) urls) /\
  ((forall k url, urls !! k = Some url -> accepted k url = false) ->
   (exists msg, answer.2 = ("", Some msg)) /\ requested answer.1 = urls) /\
  (answer.2.2 = None <-> exists k url, urls !! k = Some url /\ accepted k url = true).
Proof.
  intros answer urls. subst answer urls. unfold PublicIP.
  split; [done|]. split; [|split].
  - intros k url body Hk Hget Hok Hbefore.
    by apply (loop_first_accepted _ (PublicIPServiceURLs v) 0 k url body).
  - intros Hnone.
    destruct (loop_none_accepted (PublicIPServiceURLs v) (PublicIPServiceURLs v) 0 Hnone)
      as [-> ->].
    split; [by eexists | done].
  - apply (loop_nil_error_iff _ (PublicIPServiceURLs v) 0).
Qed.

End publicIP.

Import validator_examples.

Example toyString_injective : forall a b, toyString a = toyString b -> a = b.
Proof. intros a b H. exact H. Qed.

Example validator0_urls_valid :
  validURL toyParse (RPCURL validator0) /\
  Forall (validURL toyParse) (PublicIPServiceURLs validator0).
Proof.
  split; [|repeat constructor];
    (eexists; split; [vm_compute; reflexivity | split; discriminate]).
Qed.

Example Validate_rejects_bare_host :
  Validator_Validate toyPublicKey toyString toyParse
    {| Name := "test-validator"; RPCURL := "invalid-url";
       PublicIPServiceURLs := []; Identities := identities0 |}
  = Ret (Some "validator.rpc_url must be a valid URL: invalid URL invalid-url").
Proof. reflexivity. Qed.

Example Validate_unloaded_panics :
  ValidatorIdentities_Validate toyPublicKey toyString identities0
  = Panic "invalid memory address or nil pointer dereference".
Proof. reflexivity. Qed.

Lemma ValidatorIdentities_Validate_iff_witness :
  (exists msg,
     ValidatorIdentities_Validate toyPublicKey toyString
       (loaded ("seed-1", "K1") ("seed-2", "K1")) = Ret (Some msg)) /\
  ValidatorIdentities_Validate toyPublicKey toyString
    (loaded ("seed-1", "K1") ("seed-2", "K2")) = Ret None.
Proof.
  split.
  - apply (proj1 (ValidatorIdentities_Validate_iff toyPublicKey toyString
                    (fun a b H => H) (loaded ("seed-1", "K1") ("seed-2", "K1"))
                    _ _ eq_refl eq_refl)).
    reflexivity.
  - apply (proj2 (ValidatorIdentities_Validate_iff toyPublicKey toyString
                    (fun a b H => H) (loaded ("seed-1", "K1") ("seed-2", "K2"))
                    _ _ eq_refl eq_refl)).
    discriminate.
Defined.

Lemma Validator_Validate_identities_gate_witness :
  Validator_Validate toyPublicKey toyString toyParse validator0 = Ret None.
Proof.
  apply (Validator_Validate_identities_gate toyPublicKey toyString toyParse validator0).
  - discriminate.
  - discriminate.
  - eexists. split; [vm_compute; reflexivity | split; discriminate].
  - repeat constructor;
      (eexists; split; [vm_compute; reflexivity | split; discriminate]).
  - left. reflexivity.
Defined.

Lemma PublicIP_first_valid_witness :
  (PublicIP answers asciiTrimSpace dottedQuad validator0).2 = ("203.0.113.7", None) /\
  requested (PublicIP answers asciiTrimSpace dottedQuad validator0).1 = services.
Proof.
  destruct (PublicIP_first_valid answers asciiTrimSpace dottedQuad validator0)
    as (_ & Hfirst & _ & _).
  apply (Hfirst 2 "https://echo.example/ip"
           (String doubleQuote "203.0.113.7" +:+ String doubleQuote (String newline "ok"))).
  - reflexivity.
  - reflexivity.
  - vm_compute. reflexivity.
  - intros [|[|j]] url' Hj Hlook; [| |lia].
    + injection Hlook as <-. reflexivity.
    + injection Hlook as <-. vm_compute. reflexivity.
Defined.

End validator_facts.

(** ** Templates of role commands *)

Module role_facts.
Import role.

(** The template parses and one of its actions names the variable. *)
Definition references (tmpl name : string) : Prop :=
  exists pieces body,
    parse None tmpl = Some pieces /\ Action body ∈ pieces /\ variableOf body = Some name.

Lemma fieldOf_unknown data name :
  name ∉ templateVariables -> fieldOf data name = None.
Proof.
  intros Hnot. unfold fieldOf.
  repeat match goal with
         | |- context [String.eqb name ?known] =>
             destruct (String.eqb_spec name known) as [-> | _];
             [exfalso; apply Hnot; unfold templateVariables; set_solver |]
         end.
  reflexivity.
Qed.

Lemma execute_unknown data pieces body name :
  Action body ∈ pieces -> variableOf body = Some name -> fieldOf data name = None ->
  exists err, execute data pieces = inr err.
Proof.
  intros Hin Hvar Hnone. induction pieces as [|piece rest IH]; [by apply elem_of_nil in Hin|].
  apply elem_of_cons in Hin as [<- | Hin].
  - simpl. rewrite Hvar, Hnone. by eexists.
  - destruct (IH Hin) as [err Herr]. destruct piece as [s | b]; simpl.
    + rewrite Herr. by eexists.
    + destruct (variableOf b) as [n|]; [|by eexists].
      destruct (fieldOf data n); [|by eexists]. rewrite Herr. by eexists.
Qed.

Lemma renderTemplateString_unknown data tmpl name :
  references tmpl name -> name ∉ templateVariables ->
  exists err, renderTemplateString data tmpl = inr err.
Proof.
  intros (pieces & body & Hparse & Hin & Hvar) Hnot.
  unfold renderTemplateString. rewrite Hparse.
  eapply execute_unknown; [exact Hin | exact Hvar | by apply fieldOf_unknown].
Qed.

Lemma renderAll_fails data tmpls tmpl err :
  tmpl ∈ tmpls -> renderTemplateString data tmpl = inr err ->
  exists err', renderAll data tmpls = inr err'.
Proof.
  intros Hin Herr. induction tmpls as [|t rest IH]; [by apply elem_of_nil in Hin|].
  simpl. apply elem_of_cons in Hin as [<- | Hin].
  - rewrite Herr. by eexists.
  - destruct (renderTemplateString data t); [|by eexists].
    destruct (IH Hin) as [err' ->]. by eexists.
Qed.

(** C8: a role whose command, or one of whose arguments, is a template
    that names a variable outside the four fixed ones does not render:
    [RenderCommands] returns an error and no role. *)
Theorem RenderCommands_unknown_variable data (r : Role) name :
  name ∉ templateVariables ->
  (references (Command r) name \/ exists arg, arg ∈ Args r /\ references arg name) ->
  exists err, RenderCommands data r = inr err.
Proof.
  intros Hnot Href. unfold RenderCommands.
  destruct Href as [Hcmd | (arg & Hin & Harg)].
  - destruct (renderTemplateString_unknown data _ _ Hcmd Hnot) as [err ->]. by eexists.
  - destruct (renderTemplateString_unknown data _ _ Harg Hnot) as [err Herr].
    destruct (renderAll_fails data _ _ _ Hin Herr) as [err' ->].
    destruct (renderTemplateString data (Command r)); by eexists.
Qed.

Import role_examples.

Example RenderCommands_invalidRole :
  RenderCommands data0 invalidRole =
    inr "failed to render role.command and role.args: failed to execute command template: can't evaluate field InvalidField".
Proof. reflexivity. Qed.

Example RenderCommands_goodRole :
  exists r, RenderCommands data0 goodRole = inl r /\
    Command r = "systemctl active-pubkey" /\
    Args r = ["--identity"; "/path/to/active.json"].
Proof. eexists. split; [reflexivity|]. split; reflexivity. Qed.

Lemma RenderCommands_unknown_variable_witness :
  ("InvalidField" ∉ templateVariables) /\
  (exists err, RenderCommands data0 invalidRole = inr err).
Proof.
  assert (Hnot : "InvalidField" ∉ templateVariables).
  { unfold templateVariables. rewrite !not_elem_of_cons. repeat split; try discriminate.
    apply not_elem_of_nil. }
  split; [exact Hnot|].
  apply (RenderCommands_unknown_variable data0 invalidRole "InvalidField" Hnot).
  left. exists [Text "systemctl "; Action ".InvalidField"], ".InvalidField".
  split; [reflexivity|]. split; [|reflexivity].
  apply elem_of_cons. right. apply elem_of_cons. left. reflexivity.
Defined.

End role_facts.

(** ** The queries on the observation map *)

Module queries_facts.
Import gossip gossip_facts.

Lemma existsb_range {V} (R : MapRange) (m : gmap string V) (f : string * V -> bool) :
  existsb f (range R m) = true <-> exists k v, m !! k = Some v /\ f (k, v) = true.
Proof.
  rewrite existsb_exists. split.
  - intros ([k v] & Hin & Hf). exists k, v. split; [|done].
    apply (elem_of_range R). by apply list_elem_of_In.
  - intros (k & v & Hlook & Hf). exists (k, v). split; [|done].
    apply list_elem_of_In. by apply elem_of_range.
Qed.

Lemma firstActive_found entries name state :
  firstActive entries = (name, state, None) ->
  (name, state) ∈ entries /\ LastSeenActive state = true.
Proof.
  induction entries as [|[n st] rest IH]; simpl; [done|].
  destruct (LastSeenActive st) eqn:Hact.
  - intros [= <- <-]. split; [left | done].
  - intros H. destruct (IH H) as [Hin Ha]. split; [by right | done].
Qed.

Lemma firstActive_none entries :
  (forall name state, (name, state) ∈ entries -> LastSeenActive state = false) ->
  firstActive entries = ("", zeroPeerState, Some "no active peer found").
Proof.
  induction entries as [|[n st] rest IH]; simpl; [done|].
  intros Hall. rewrite (Hall n st) by left. apply IH.
  intros name state Hin. apply (Hall name state). by right.
Qed.

Lemma firstActive_some entries name state :
  (name, state) ∈ entries -> LastSeenActive state = true ->
  exists name' state', firstActive entries = (name', state', None).
Proof.
  induction entries as [|[n st] rest IH]; intros Hin Hact; [by apply elem_of_nil in Hin|].
  simpl. destruct (LastSeenActive st) eqn:Hst; [by eexists _, _|].
  apply elem_of_cons in Hin as [[= -> ->] | Hin]; [congruence | by apply IH].
Qed.

Lemma HasActivePeer_exists R p :
  HasActivePeer R p = true <->
  exists name obs, peerStatesByName p !! name = Some obs /\ LastSeenActive obs = true.
Proof. unfold HasActivePeer. apply existsb_range. Qed.

Lemma HasIP_exists R p ip :
  HasIP R p ip = true <->
  exists name obs, peerStatesByName p !! name = Some obs /\ IP obs = ip.
Proof.
  unfold HasIP. rewrite existsb_range. split.
  - intros (name & obs & Hlook & Heq). apply String.eqb_eq in Heq. by exists name, obs.
  - intros (name & obs & Hlook & Heq). exists name, obs. split; [done|].
    by apply String.eqb_eq.
Qed.

Lemma bool_eq_of_iff (a b : bool) : (a = true <-> b = true) -> a = b.
Proof.
  intros [H1 H2]. destruct a, b; try reflexivity.
  - symmetry. by apply H1.
  - by apply H2.
Qed.

(** [HasActivePeer] is true exactly when some observation of the map was
    last seen active; the order in which the map is ranged over does not
    change the answer. *)
Theorem HasActivePeer_iff R p :
  (HasActivePeer R p = true <->
   exists name obs, peerStatesByName p !! name = Some obs /\ LastSeenActive obs = true) /\
  (forall R', HasActivePeer R' p = HasActivePeer R p).
Proof.
  split; [apply HasActivePeer_exists|].
  intros R'. apply bool_eq_of_iff. by rewrite !HasActivePeer_exists.
Qed.

(** [HasIP ip] is true exactly when some observation carries [ip]; the
    order in which the map is ranged over does not change the answer. *)
Theorem HasIP_iff R p ip :
  (HasIP R p ip = true <->
   exists name obs, peerStatesByName p !! name = Some obs /\ IP obs = ip) /\
  (forall R', HasIP R' p ip = HasIP R p ip).
Proof.
  split; [apply HasIP_exists|].
  intros R'. apply bool_eq_of_iff. by rewrite !HasIP_exists.
Qed.

(** [HasPeers ip] asks for an observation at another IP than [ip]: it is
    false on an empty map, and false on a map whose only observations are
    at [ip]; whether [ip] itself is observed plays no part. *)
Theorem HasPeers_iff R p ip :
  (HasPeers R p ip = true <->
   exists name obs, peerStatesByName p !! name = Some obs /\ IP obs <> ip) /\
  (HasPeers R p ip = false <->
   forall name obs, peerStatesByName p !! name = Some obs -> IP obs = ip).
Proof.
  assert (Hiff : HasPeers R p ip = true <->
    exists name obs, peerStatesByName p !! name = Some obs /\ IP obs <> ip).
  { unfold HasPeers. rewrite existsb_range. split.
    - intros (name & obs & Hlook & Hne). apply negb_true_iff, String.eqb_neq in Hne.
      by exists name, obs.
    - intros (name & obs & Hlook & Hne). exists name, obs. split; [done|].
      by apply negb_true_iff, String.eqb_neq. }
  split; [exact Hiff|]. rewrite <- not_true_iff_false, Hiff. split.
  - intros Hno name obs Hlook. destruct (decide (IP obs = ip)) as [|Hne]; [done|].
    exfalso. apply Hno. by exists name, obs.
  - intros Hall (name & obs & Hlook & Hne). apply Hne. exact (Hall name obs Hlook).
Qed.

(** [GetActivePeer] and [HasActivePeer] agree, whatever the two range
    orders: the error is nil exactly when [HasActivePeer] holds; a peer
    returned is an entry of the map that was last seen active; and without
    one the answer is the empty name, the zero state and the error. *)
Theorem GetActivePeer_agrees R R' p :
  ((GetActivePeer R p).2 = None <-> HasActivePeer R' p = true) /\
  (forall name state, GetActivePeer R p = (name, state, None) ->
     peerStatesByName p !! name = Some state /\ LastSeenActive state = true) /\
  (HasActivePeer R' p = false ->
   GetActivePeer R p = ("", zeroPeerState, Some "no active peer found")).
Proof.
  assert (Hfound : forall name state, GetActivePeer R p = (name, state, None) ->
            peerStatesByName p !! name = Some state /\ LastSeenActive state = true).
  { intros name state Hget. apply firstActive_found in Hget as [Hin Hact].
    split; [by apply elem_of_range in Hin | done]. }
  assert (Hnone : HasActivePeer R' p = false ->
            GetActivePeer R p = ("", zeroPeerState, Some "no active peer found")).
  { intros Hno. apply firstActive_none. intros name state Hin.
    apply elem_of_range in Hin. destruct (LastSeenActive state) eqn:Hact; [|done].
    apply not_true_iff_false in Hno. exfalso. apply Hno, HasActivePeer_exists.
    by exists name, state. }
  split; [|split; [exact Hfound | exact Hnone]]. split.
  - intros Herr. destruct (GetActivePeer R p) as [[name state] err] eqn:Hget.
    simpl in Herr. subst err. destruct (Hfound name state eq_refl) as [Hlook Hact].
    apply HasActivePeer_exists. by exists name, state.
  - intros Hhas. apply HasActivePeer_exists in Hhas as (name & obs & Hlook & Hact).
    apply (elem_of_range R) in Hlook.
    destruct (firstActive_some _ _ _ Hlook Hact) as (n & st & Hfirst).
    unfold GetActivePeer. by rewrite Hfirst.
Qed.

Lemma anyActiveWithin_active now d entries : forall k,
  anyActiveWithin now d k entries = true ->
  exists name obs, (name, obs) ∈ entries /\ LastSeenActive obs = true.
Proof.
  induction entries as [|[name obs] rest IH]; intros k; simpl; [done|].
  destruct (LastSeenActive obs) eqn:Hact.
  - intros _. exists name, obs. split; [left | done].
  - simpl. intros H. destruct (IH _ H) as (n & o & Hin & Ha).
    exists n, o. split; [by right | done].
Qed.

Lemma anyActiveWithin_mono now d d' entries : forall k,
  (d <= d')%Z -> anyActiveWithin now d k entries = true ->
  anyActiveWithin now d' k entries = true.
Proof.
  induction entries as [|[name obs] rest IH]; intros k Hle; simpl; [done|].
  destruct (LastSeenActive obs); simpl; [|by apply IH].
  destruct (Z.ltb_spec (time.Since (now k) (LastSeenAtUTC obs)) d) as [Hlt | Hge].
  - intros _. destruct (Z.ltb_spec (time.Since (now k) (LastSeenAtUTC obs)) d');
      [done | lia].
  - intros H. destruct (Z.ltb_spec (time.Since (now k) (LastSeenAtUTC obs)) d');
      [done | by apply IH].
Qed.

(** An active peer seen within a duration is an active peer, and is still
    one within any longer duration: [HasActivePeerInTheLast d] implies
    [HasActivePeer], and implies [HasActivePeerInTheLast d'] for every
    [d' >= d] read against the same clock. *)
Theorem HasActivePeerInTheLast_weakens R R' now p d :
  HasActivePeerInTheLast R now p d = true ->
  HasActivePeer R' p = true /\
  forall d', (d <= d')%Z -> HasActivePeerInTheLast R now p d' = true.
Proof.
  intros Hin. split.
  - apply anyActiveWithin_active in Hin as (name & obs & Hel & Hact).
    apply HasActivePeer_exists. exists name, obs. split; [|done].
    by apply elem_of_range in Hel.
  - intros d' Hle. by apply (anyActiveWithin_mono now d d').
Qed.

(** A state fresh from [NewState] holds no observation: every query
    answers in the negative. *)
Theorem NewState_queries opts R now d ip :
  HasActivePeer R (NewState opts) = false /\
  HasActivePeerInTheLast R now (NewState opts) d = false /\
  HasIP R (NewState opts) ip = false /\
  HasPeers R (NewState opts) ip = false /\
  GetActivePeer R (NewState opts) = ("", zeroPeerState, Some "no active peer found") /\
  GetPeerStates (NewState opts) = ∅.
Proof.
  unfold HasActivePeer, HasActivePeerInTheLast, HasIP, HasPeers, GetActivePeer,
    GetPeerStates, NewState.
  cbn [peerStatesByName]. by rewrite !range_empty.
Qed.

Lemma HasActivePeerInTheLast_weakens_witness :
  HasActivePeer reversed_range gossip_examples.st1 = true /\
  HasActivePeerInTheLast sorted_range (fun k => (1000 + Z.of_nat k)%Z)
    gossip_examples.st1 60 = true.
Proof.
  assert (H : HasActivePeerInTheLast sorted_range (fun k => (1000 + Z.of_nat k)%Z)
                gossip_examples.st1 10 = true) by (vm_compute; reflexivity).
  destruct (HasActivePeerInTheLast_weakens sorted_range reversed_range _ _ _ H)
    as [Hhas Hlonger].
  split; [exact Hhas | apply Hlonger; lia].
Defined.

End queries_facts.

(** ** More on what [Refresh] leaves behind *)

Module refresh_more_facts.
Import gossip gossip_facts refresh_facts.

(** Configured peers have pairwise distinct IPs. *)
Definition distinctIPs (cfg : gmap string peers.Peer) : Prop :=
  forall n1 n2 q1 q2, cfg !! n1 = Some q1 -> cfg !! n2 = Some q2 ->
    peers.IP q1 = peers.IP q2 -> n1 = n2.

(** The clock never goes back. *)
Definition steady (E : Env) : Prop :=
  forall i j, i <= j -> (now_at E i <= now_at E j)%Z.

Lemma scanNodes_size E p rest : forall i latest log latest' log',
  scanNodes E p i rest latest log = Ret (latest', log') ->
  size latest' <= size latest + length rest.
Proof.
  induction rest as [|node rest IH]; intros i latest log latest' log' Hrun.
  { simpl in Hrun. injection Hrun as <- <-. lia. }
  assert (Hins : forall nm o, size (<[nm := o]> latest) <= S (size latest)).
  { intros nm o. rewrite map_size_insert. destruct (latest !! nm); simpl; lia. }
  apply scanNodes_cons_inv in Hrun
    as (g & Hg & [(log1 & Hrun & _) | (nm & peer & Hcfg & Hip & [[-> _] | Hrun])]).
  - apply IH in Hrun. simpl. lia.
  - specialize (Hins nm (observation E i node g)). simpl. lia.
  - apply IH in Hrun. specialize (Hins nm (observation E i node g)). simpl. lia.
Qed.

Lemma keyedByConfig_size (cfg : gmap string peers.Peer) (latest : gmap string PeerState) :
  keyedByConfig cfg latest -> size latest <= size cfg.
Proof.
  intros Hkeyed. rewrite <- (size_dom latest), <- (size_dom cfg).
  apply subseteq_size. intros n Hn. apply elem_of_dom in Hn as [o Ho].
  destruct (Hkeyed n o Ho) as (q & Hq & _). apply elem_of_dom. by exists q.
Qed.

Lemma keyedByConfig_empty cfg : keyedByConfig cfg ∅.
Proof. intros n o. by rewrite lookup_empty. Qed.

Lemma scanNodes_log_lines E p rest : forall i latest log latest' log' line,
  scanNodes E p i rest latest log = Ret (latest', log') ->
  line ∈ log' -> line ∈ log \/ msg line = "peer not found in config".
Proof.
  induction rest as [|node rest IH]; intros i latest log latest' log' line Hrun Hin.
  { simpl in Hrun. injection Hrun as <- <-. by left. }
  cbn [scanNodes] in Hrun. destruct (rpc.Gossip node) as [g|]; [|done].
  destruct (negb _); [by eapply IH|].
  destruct (String.eqb _ "").
  - destruct (IH _ _ _ _ _ _ Hrun Hin) as [Hold | Hnew]; [|by right].
    apply elem_of_app in Hold as [Hold | Hhere]; [by left|].
    apply list_elem_of_singleton in Hhere. subst line. by right.
  - destruct (Nat.eqb _ _); [injection Hrun as <- <-; by left | by eapply IH].
Qed.

Lemma warnMissing_sound entries (latest : gmap string PeerState) line :
  line ∈ warnMissing entries latest ->
  exists name peer, (name, peer) ∈ entries /\ latest !! name = None /\
    line = missingWarning name peer.
Proof.
  induction entries as [|[n q] rest IH]; simpl; intros Hin; [by apply elem_of_nil in Hin|].
  destruct (latest !! n) eqn:Hn.
  - destruct (IH Hin) as (name & peer & Hel & Hnone & Hline).
    exists name, peer. split; [by right | done].
  - apply elem_of_cons in Hin as [-> | Hin].
    + exists n, q. split; [left | done].
    + destruct (IH Hin) as (name & peer & Hel & Hnone & Hline).
      exists name, peer. split; [by right | done].
Qed.

(** The part of [Refresh] common to both of its exits. *)
Lemma Refresh_inv E p nodes err p' log :
  Refresh E p (nodes, err) = Ret (p', log) ->
  configPeers p' = configPeers p /\ activePubkey p' = activePubkey p /\
  selfIP p' = selfIP p /\
  PeerStatesRefreshedAt p' = now_at E (refreshReading (nodes, err)) /\
  keyedByConfig (configPeers p) (peerStatesByName p') /\
  forall name obs, peerStatesByName p' !! name = Some obs ->
    exists k node g peer,
      nodes !! k = Some node /\ rpc.Gossip node = Some g /\
      obs = observation E k node g /\
      configPeers p !! name = Some peer /\ peers.IP peer = strings.SplitHead ":" g.
Proof.
  destruct err as [e|]; intros Hrun.
  - unfold Refresh in Hrun. injection Hrun as <- <-.
    cbn [configPeers activePubkey selfIP PeerStatesRefreshedAt peerStatesByName].
    split; [done|]. split; [done|]. split; [done|]. split; [done|].
    split; [apply keyedByConfig_empty|].
    intros name obs. by rewrite lookup_empty.
  - apply Refresh_ok_inv in Hrun as (log0 & Hscan & _ & Hts & Hcfg & Hact & Hself).
    split; [done|]. split; [done|]. split; [done|]. split; [done|]. split.
    + eapply scanNodes_keyedByConfig; [exact Hscan | apply keyedByConfig_empty].
    + intros name obs Hlook.
      destruct (scanNodes_origin _ _ _ _ _ _ _ _ _ _ Hscan Hlook)
        as [Hold | H]; [by rewrite lookup_empty in Hold | exact H].
Qed.

(** The observation map never holds more entries than there are configured
    peers, nor more than there are nodes in the reply. *)
Theorem Refresh_size_bounds E p reply p' log :
  Refresh E p reply = Ret (p', log) ->
  size (peerStatesByName p') <= size (configPeers p) /\
  size (peerStatesByName p') <= length reply.1.
Proof.
  destruct reply as [nodes err]. intros Hrun. split.
  - apply keyedByConfig_size. by apply Refresh_inv in Hrun as (_ & _ & _ & _ & Hk & _).
  - destruct err as [e|].
    + unfold Refresh in Hrun. injection Hrun as <- <-. cbn. rewrite map_size_empty. lia.
    + apply Refresh_ok_inv in Hrun as (log0 & Hscan & _).
      apply scanNodes_size in Hscan. rewrite map_size_empty in Hscan. exact Hscan.
Qed.

(** With a clock that never goes back, no observation is stamped later
    than the refresh itself. *)
Theorem Refresh_stamps_ordered E p reply p' log :
  steady E ->
  Refresh E p reply = Ret (p', log) ->
  forall name obs, peerStatesByName p' !! name = Some obs ->
    (LastSeenAtUTC obs <= PeerStatesRefreshedAt p')%Z.
Proof.
  destruct reply as [nodes [e|]]; intros Hsteady Hrun name obs Hlook.
  - unfold Refresh in Hrun. injection Hrun as <- <-.
    cbn [peerStatesByName] in Hlook. by rewrite lookup_empty in Hlook.
  - apply Refresh_inv in Hrun as (_ & _ & _ & Hts & _ & Horigin).
    destruct (Horigin name obs Hlook) as (k & node & g & peer & Hk & Hg & -> & _).
    rewrite Hts. cbn [LastSeenAtUTC observation refreshReading fst snd].
    apply Hsteady. apply lookup_lt_Some in Hk. lia.
Qed.

(** Refreshing again from the state a refresh returned, against the same
    reply, clock and range orders, returns that state again. *)
Theorem Refresh_again E p reply p' log :
  Refresh E p reply = Ret (p', log) -> Refresh E p' reply = Ret (p', log).
Proof.
  destruct reply as [nodes err]. intros Hrun. rewrite <- Hrun.
  apply Refresh_inv in Hrun as (Hcfg & Hact & Hself & _).
  unfold Refresh. rewrite Hcfg, Hact, Hself. destruct err as [e|]; [done|].
  by rewrite (scanNodes_config E p' p).
Qed.

(** After a refresh, [HasIP ip] says that [ip] is the IP of a configured
    peer and the host of a node of the reply; with every peer configured
    under a non-empty name it says no less. *)
Theorem Refresh_HasIP E p nodes p' log R ip :
  Refresh E p (nodes, None) = Ret (p', log) ->
  (HasIP R p' ip = true ->
   configuredIP (configPeers p) ip /\
   exists node g, node ∈ nodes /\ rpc.Gossip node = Some g /\
                  strings.SplitHead ":" g = ip) /\
  (configPeers p !! "" = None ->
   configuredIP (configPeers p) ip ->
   (exists node g, node ∈ nodes /\ rpc.Gossip node = Some g /\
                   strings.SplitHead ":" g = ip) ->
   HasIP R p' ip = true).
Proof.
  intros Hrun. split.
  - intros Hhas. apply queries_facts.HasIP_exists in Hhas as (name & obs & Hlook & Hip).
    apply Refresh_inv in Hrun as (_ & _ & _ & _ & _ & Horigin).
    destruct (Horigin name obs Hlook) as (k & node & g & peer & Hk & Hg & -> & Hcfg & Hpip).
    cbn in Hip. split.
    + exists name, peer. split; [done | congruence].
    + exists node, g. split; [by eapply list_elem_of_lookup_2 | done].
  - intros Hnamed Hconf (node & g & Hin & Hg & <-).
    apply Refresh_ok_inv in Hrun as (log0 & Hscan & _).
    apply list_elem_of_lookup in Hin as [k Hk].
    destruct (scanNodes_records E p nodes 0 ∅ [] _ _ k node g Hnamed
                (keyedByConfig_empty _) Hscan Hk Hg Hconf)
      as (name & peer & obs & _ & _ & Hlook & Hip).
    apply queries_facts.HasIP_exists. by exists name, obs.
Qed.

(** With pairwise distinct configured IPs and no peer under the empty
    name, a configured peer has an observation after a refresh exactly when
    some node of the reply has its IP as host. *)
Theorem Refresh_presence E p nodes p' log name peer :
  distinctIPs (configPeers p) ->
  configPeers p !! "" = None ->
  Refresh E p (nodes, None) = Ret (p', log) ->
  configPeers p !! name = Some peer ->
  is_Some (peerStatesByName p' !! name) <->
  exists node g, node ∈ nodes /\ rpc.Gossip node = Some g /\
                 strings.SplitHead ":" g = peers.IP peer.
Proof.
  intros Hdistinct Hnamed Hrun Hcfg. split.
  - intros [obs Hlook].
    apply Refresh_inv in Hrun as (_ & _ & _ & _ & _ & Horigin).
    destruct (Horigin name obs Hlook) as (k & node & g & q & Hk & Hg & _ & Hq & Hip).
    exists node, g. split; [by eapply list_elem_of_lookup_2|]. split; [done|].
    congruence.
  - intros (node & g & Hin & Hg & Hhost).
    apply Refresh_ok_inv in Hrun as (log0 & Hscan & _).
    apply list_elem_of_lookup in Hin as [k Hk].
    assert (Hconf : configuredIP (configPeers p) (strings.SplitHead ":" g))
      by (by exists name, peer).
    destruct (scanNodes_records E p nodes 0 ∅ [] _ _ k node g Hnamed
                (keyedByConfig_empty _) Hscan Hk Hg Hconf)
      as (name' & peer' & obs & Hcfg' & Hip' & Hlook & _).
    assert (name' = name) as -> by (eapply Hdistinct; [done | done | congruence]).
    by exists obs.
Qed.

(** [HasActivePeer] holds after a refresh only if a node of the reply, at
    the IP of a configured peer, reports the pubkey that [Refresh] compares
    with. *)
Theorem Refresh_HasActivePeer_origin E p reply p' log R :
  Refresh E p reply = Ret (p', log) ->
  HasActivePeer R p' = true ->
  exists node g, node ∈ reply.1 /\ rpc.Gossip node = Some g /\
    rpc.Pubkey node = hardcodedActivePubkey /\
    configuredIP (configPeers p) (strings.SplitHead ":" g).
Proof.
  destruct reply as [nodes err]. intros Hrun Hhas.
  apply queries_facts.HasActivePeer_exists in Hhas as (name & obs & Hlook & Hact).
  apply Refresh_inv in Hrun as (_ & _ & _ & _ & _ & Horigin).
  destruct (Horigin name obs Hlook) as (k & node & g & peer & Hk & Hg & -> & Hcfg & Hip).
  cbn in Hact. apply String.eqb_eq in Hact.
  exists node, g. split; [by eapply list_elem_of_lookup_2|]. split; [done|].
  split; [done|]. by exists name, peer.
Qed.

(** The closing warnings are exact: after a refresh that reached the
    directory, the log holds the "peer not found in gossip" line of a
    configured peer exactly when that peer has no observation. *)
Theorem Refresh_missing_warning_iff E p nodes p' log name peer :
  Refresh E p (nodes, None) = Ret (p', log) ->
  configPeers p !! name = Some peer ->
  missingWarning name peer ∈ log <-> peerStatesByName p' !! name = None.
Proof.
  intros Hrun Hcfg.
  apply Refresh_ok_inv in Hrun as (log0 & Hscan & -> & _). split.
  - intros Hin. apply elem_of_app in Hin as [Hin | Hin].
    + destruct (scanNodes_log_lines _ _ _ _ _ _ _ _ _ Hscan Hin) as [Hnil | Hmsg];
        [by apply elem_of_nil in Hnil | discriminate Hmsg].
    + apply warnMissing_sound in Hin as (n & q & _ & Hnone & Heq).
      injection Heq as -> _. exact Hnone.
  - intros Hnone. apply elem_of_app. right.
    apply warnMissing_complete; [by apply elem_of_range | done].
Qed.

(** The IP of an observation is cut at the first colon, so a peer
    configured with an IP that contains one (an IPv6 address) is never
    observed. *)
Theorem Refresh_colon_IP_never_observed E p reply p' log name peer :
  Refresh E p reply = Ret (p', log) ->
  configPeers p !! name = Some peer ->
  strings.occurs ":" (peers.IP peer) = true ->
  peerStatesByName p' !! name = None.
Proof.
  destruct reply as [nodes err]. intros Hrun Hcfg Hcolon.
  destruct (peerStatesByName p' !! name) as [obs|] eqn:Hlook; [|done].
  apply Refresh_inv in Hrun as (_ & _ & _ & _ & _ & Horigin).
  destruct (Horigin name obs Hlook) as (k & node & g & q & _ & _ & _ & Hq & Hip).
  assert (q = peer) as -> by congruence.
  rewrite Hip, strings_facts.SplitHead_free in Hcolon. discriminate.
Qed.

(** No two nodes of the reply gossip from the same host. *)
Definition distinctHosts (nodes : list rpc.GetClusterNodesResult) : Prop :=
  forall k1 k2 n1 n2 g1 g2,
    nodes !! k1 = Some n1 -> nodes !! k2 = Some n2 ->
    rpc.Gossip n1 = Some g1 -> rpc.Gossip n2 = Some g2 ->
    strings.SplitHead ":" g1 = strings.SplitHead ":" g2 -> k1 = k2.

(** With pairwise distinct configured IPs, no peer under the empty name and
    no two nodes at one host, the observation of a configured peer is that
    of the node at its IP: its IP, its pubkey, the clock reading taken when
    the node was examined, and the result of the pubkey comparison. *)
Theorem Refresh_observation_exact E p nodes p' log k node g name peer :
  distinctIPs (configPeers p) ->
  configPeers p !! "" = None ->
  distinctHosts nodes ->
  Refresh E p (nodes, None) = Ret (p', log) ->
  nodes !! k = Some node -> rpc.Gossip node = Some g ->
  configPeers p !! name = Some peer ->
  peers.IP peer = strings.SplitHead ":" g ->
  peerStatesByName p' !! name = Some (observation E k node g).
Proof.
  intros Hips Hnamed Hhosts Hrun Hk Hg Hcfg Hip.
  assert (Hconf : configuredIP (configPeers p) (strings.SplitHead ":" g))
    by (by exists name, peer).
  destruct (Refresh_ok_inv _ _ _ _ _ Hrun) as (log0 & Hscan & _).
  destruct (scanNodes_records E p nodes 0 ∅ [] _ _ k node g Hnamed
              (keyedByConfig_empty _) Hscan Hk Hg Hconf)
    as (name' & peer' & obs & Hcfg' & Hip' & Hlook & _).
  assert (name' = name) as -> by (eapply Hips; [done | done | congruence]).
  apply Refresh_inv in Hrun as (_ & _ & _ & _ & _ & Horigin).
  destruct (Horigin name obs Hlook) as (k' & node' & g' & q & Hk' & Hg' & Hobs & Hq & Hqip).
  assert (q = peer) as -> by congruence.
  assert (k' = k) as -> by (eapply Hhosts; [done | done | done | done | congruence]).
  assert (node' = node) as -> by congruence.
  assert (g' = g) as -> by congruence.
  by rewrite Hlook, Hobs.
Qed.

End refresh_more_facts.

(** ** More on the validator configuration *)

Module validator_more_facts.
Import validator validator_facts.

Section config.
Context {PrivateKey PublicKey : Type}.
Context (PrivateKey_PublicKey : PrivateKey -> PublicKey).
Context (PublicKey_String : PublicKey -> string).
Context (PrivateKeyFromSolanaKeygenFile : string -> PrivateKey + string).
Context (url_Parse : string -> URL + string).

Abbreviation rendered k := (PublicKey_String (PrivateKey_PublicKey k)).
Abbreviation IdentitiesValidate :=
  (ValidatorIdentities_Validate PrivateKey_PublicKey PublicKey_String).
Abbreviation Validate :=
  (Validator_Validate PrivateKey_PublicKey PublicKey_String url_Parse).
Abbreviation LoadKeys := (Load PrivateKeyFromSolanaKeygenFile).
Abbreviation valid := (validURL url_Parse).

Lemma validURL_dec u :
  valid u \/
  (exists err, url_Parse u = inr err) \/
  (exists parsed, url_Parse u = inl parsed /\ (Scheme parsed = "" \/ Host parsed = "")).
Proof.
  destruct (url_Parse u) as [parsed | err] eqn:Hparse; [|right; left; by eexists].
  destruct (String.eqb_spec (Scheme parsed) ""); [right; right; exists parsed; auto|].
  destruct (String.eqb_spec (Host parsed) ""); [right; right; exists parsed; auto|].
  left. by exists parsed.
Qed.

Lemma validatePublicIPServiceURLs_iff urls :
  validatePublicIPServiceURLs url_Parse urls = None <-> Forall valid urls.
Proof.
  split; [|apply validatePublicIPServiceURLs_valid].
  induction urls as [|u urls IH]; simpl; [constructor|].
  destruct (url_Parse u) as [parsed | err] eqn:Hparse; [|done].
  destruct (String.eqb_spec (Scheme parsed) ""); [done|].
  destruct (String.eqb_spec (Host parsed) ""); [done|]. simpl.
  intros H. constructor; [by exists parsed | by apply IH].
Qed.

(** [Validator.Validate] never runs into a nil key pair, and it accepts a
    validator exactly when the name is set, the RPC URL is set and parses
    with a scheme and a host, every public-IP service URL does too, and the
    two public keys, if both key pairs are loaded, render differently. *)
Theorem Validator_Validate_accepts_iff (v : Validator PrivateKey) :
  returned (Validate v) /\
  (Validate v = Ret None <->
   Name v <> "" /\ RPCURL v <> "" /\ valid (RPCURL v) /\
   Forall valid (PublicIPServiceURLs v) /\
   forall a b, ActiveKeyPair (Identities v) = Some a ->
               PassiveKeyPair (Identities v) = Some b ->
               rendered a <> rendered b).
Proof.
  unfold Validator_Validate.
  destruct (String.eqb_spec (Name v) "") as [Hname | Hname].
  { split; [by eexists|]. split; [done | by intros [? _]]. }
  destruct (String.eqb_spec (RPCURL v) "") as [Hrpc | Hrpc].
  { split; [by eexists|]. split; [done | by intros (_ & ? & _)]. }
  destruct (validURL_dec (RPCURL v))
    as [Hvalid | [[err Herr] | (parsed & Hparse & Hempty)]].
  2:{ rewrite Herr. split; [by eexists|]. split; [done|].
      intros (_ & _ & (q & Hq & _) & _). congruence. }
  2:{ rewrite Hparse.
      assert (String.eqb (Scheme parsed) "" || String.eqb (Host parsed) "" = true) as ->.
      { apply orb_true_iff. destruct Hempty as [-> | ->]; [by left | by right]. }
      split; [by eexists|]. split; [done|].
      intros (_ & _ & (q & Hq & Hqs & Hqh) & _).
      assert (q = parsed) as -> by congruence. by destruct Hempty. }
  destruct Hvalid as (parsed & Hparse & Hs & Hh). rewrite Hparse.
  assert (Hstill : valid (RPCURL v)) by (by exists parsed).
  apply String.eqb_neq in Hs, Hh. rewrite Hs, Hh. cbn [orb].
  destruct (validatePublicIPServiceURLs url_Parse (PublicIPServiceURLs v)) as [e|] eqn:Hurls.
  { split; [by eexists|]. split; [done|].
    intros (_ & _ & _ & Hall & _).
    apply validatePublicIPServiceURLs_iff in Hall. congruence. }
  apply validatePublicIPServiceURLs_iff in Hurls.
  unfold ValidatorIdentities_Validate.
  destruct (ActiveKeyPair (Identities v)) as [a|];
    [destruct (PassiveKeyPair (Identities v)) as [b|]|].
  - destruct (String.eqb_spec (rendered a) (rendered b)) as [Heq | Hne].
    + split; [by eexists|]. split; [done|].
      intros (_ & _ & _ & _ & Hdiff). by destruct (Hdiff a b).
    + split; [by eexists|]. split; [|done].
      intros _. split; [done|]. split; [done|]. split; [done|]. split; [done|].
      by intros ? ? [= <-] [= <-].
  - split; [by eexists|]. split; [|done]. intros _.
    split; [done|]. split; [done|]. split; [done|]. split; [done|]. done.
  - split; [by eexists|]. split; [|done]. intros _.
    split; [done|]. split; [done|]. split; [done|]. split; [done|]. done.
Qed.

(** [Validator.SetDefaults] fills an empty RPC URL and an empty list of
    public-IP services and touches nothing else: afterwards neither is
    empty, values that were set are kept, and a second call changes
    nothing. *)
Theorem Validator_SetDefaults_fills (v : Validator PrivateKey) :
  SetDefaults (SetDefaults v) = SetDefaults v /\
  RPCURL (SetDefaults v) <> "" /\
  PublicIPServiceURLs (SetDefaults v) <> [] /\
  (RPCURL v <> "" -> RPCURL (SetDefaults v) = RPCURL v) /\
  (PublicIPServiceURLs v <> [] ->
   PublicIPServiceURLs (SetDefaults v) = PublicIPServiceURLs v) /\
  Name (SetDefaults v) = Name v /\ Identities (SetDefaults v) = Identities v.
Proof.
  unfold SetDefaults. cbn [RPCURL PublicIPServiceURLs Name Identities].
  destruct (String.eqb_spec (RPCURL v) "") as [Hrpc | Hrpc];
    destruct (PublicIPServiceURLs v) as [|u urls] eqn:Hurls; cbn;
    repeat split; try done.
  all: try (by destruct (String.eqb_spec (RPCURL v) "")).
  all: try (intros _; by destruct (String.eqb_spec (RPCURL v) "")).
  all: f_equal; by destruct (String.eqb_spec (RPCURL v) "").
Qed.

Lemma Validate_accepts_when (v : Validator PrivateKey) :
  Name v <> "" -> RPCURL v <> "" -> valid (RPCURL v) ->
  Forall valid (PublicIPServiceURLs v) ->
  (ActiveKeyPair (Identities v) = None \/ PassiveKeyPair (Identities v) = None) ->
  Validate v = Ret None.
Proof.
  intros Hname Hrpc (parsed & Hparse & Hs & Hh) Hurls Hkeys.
  unfold Validator_Validate. apply String.eqb_neq in Hname, Hrpc, Hs, Hh.
  rewrite Hname, Hrpc, Hparse, Hs, Hh. cbn [orb].
  rewrite (validatePublicIPServiceURLs_valid _ _ Hurls).
  destruct Hkeys as [-> | ->]; [done|].
  by destruct (ActiveKeyPair (Identities v)).
Qed.

(** A validator that has a name, and whose RPC URL and public-IP services
    are unset or valid, passes [Validate] after [SetDefaults] as long as a
    key pair is still to be loaded, provided the defaults themselves
    parse. *)
Theorem Validator_SetDefaults_then_Validate (v : Validator PrivateKey) :
  valid "http://localhost:8899" -> Forall valid publicIPServices ->
  Name v <> "" ->
  (RPCURL v = "" \/ valid (RPCURL v)) ->
  Forall valid (PublicIPServiceURLs v) ->
  (ActiveKeyPair (Identities v) = None \/ PassiveKeyPair (Identities v) = None) ->
  Validate (SetDefaults v) = Ret None.
Proof.
  intros Hdefault Hservices Hname Hrpc Hurls Hkeys.
  apply Validate_accepts_when; unfold SetDefaults;
    cbn [Name RPCURL PublicIPServiceURLs Identities]; try done.
  - by destruct (String.eqb_spec (RPCURL v) "").
  - destruct (String.eqb_spec (RPCURL v) "") as [Hempty | Hset]; [done|].
    by destruct Hrpc.
  - by destruct (PublicIPServiceURLs v).
Qed.

(** A [Load] that succeeds has read both files and holds both key pairs,
    so that [ValidatorIdentities.Validate] on its result returns, with nil
    exactly when the two public keys render differently. *)
Theorem Load_then_Validate (v v' : ValidatorIdentities PrivateKey) :
  LoadKeys v = (v', None) ->
  exists a b,
    PrivateKeyFromSolanaKeygenFile (ActiveKeyPairFile v) = inl a /\
    PrivateKeyFromSolanaKeygenFile (PassiveKeyPairFile v) = inl b /\
    ActiveKeyPair v' = Some a /\ PassiveKeyPair v' = Some b /\
    ActiveKeyPairFile v' = ActiveKeyPairFile v /\
    PassiveKeyPairFile v' = PassiveKeyPairFile v /\
    returned (IdentitiesValidate v') /\
    (IdentitiesValidate v' = Ret None <-> rendered a <> rendered b).
Proof.
  unfold Load.
  destruct (PrivateKeyFromSolanaKeygenFile (ActiveKeyPairFile v)) as [a|e]; [|done].
  destruct (PrivateKeyFromSolanaKeygenFile (PassiveKeyPairFile v)) as [b|e]; [|done].
  intros [= <-]. exists a, b. repeat split; try done.
  - unfold ValidatorIdentities_Validate. cbn. destruct (String.eqb _ _); by eexists.
  - unfold ValidatorIdentities_Validate. cbn.
    destruct (String.eqb_spec (rendered a) (rendered b)); [done | done].
  - unfold ValidatorIdentities_Validate. cbn.
    destruct (String.eqb_spec (rendered a) (rendered b)); [done | done].
Qed.

(** A [Load] that fails is not undone: when the active file cannot be read
    nothing changes and the passive file is not looked at; when only the
    passive file cannot be read the active key pair stays loaded and the
    passive one is left as it was. *)
Theorem Load_failure (v : ValidatorIdentities PrivateKey) :
  (forall err, PrivateKeyFromSolanaKeygenFile (ActiveKeyPairFile v) = inr err ->
     LoadKeys v = (v, Some ("failed to load active identity file: " +:+ err))) /\
  (forall a err,
     PrivateKeyFromSolanaKeygenFile (ActiveKeyPairFile v) = inl a ->
     PrivateKeyFromSolanaKeygenFile (PassiveKeyPairFile v) = inr err ->
     (LoadKeys v).2 = Some ("failed to load passive identity file: " +:+ err) /\
     ActiveKeyPair (LoadKeys v).1 = Some a /\
     PassiveKeyPair (LoadKeys v).1 = PassiveKeyPair v).
Proof.
  unfold Load. split.
  - intros err ->. done.
  - intros a err -> ->. done.
Qed.

End config.

Section publicIP.
Context {PrivateKey : Type}.
Context (http_Get : nat -> string -> Fetched).
Context (strings_TrimSpace : string -> string).
Context (net_ParseIP_To4 : string -> bool).

Abbreviation loop := (PublicIP_from http_Get strings_TrimSpace net_ParseIP_To4).

Lemma loop_shape all urls : forall k0,
  ((loop all k0 urls).2.2 = None -> net_ParseIP_To4 (loop all k0 urls).2.1 = true) /\
  ((loop all k0 urls).2.2 <> None -> (loop all k0 urls).2.1 = "") /\
  (exists n, requested (loop all k0 urls).1 = take n urls).
Proof.
  induction urls as [|u urls IH]; intros k0.
  - cbn. split; [done|]. split; [done|]. by exists 0.
  - destruct (IH (S k0)) as (Hok & Herr & n & Hreq).
    cbn [PublicIP_from].
    destruct (http_Get k0 u) as [e|e|body].
    + unfold after. cbn [fst snd app requested].
      split; [exact Hok|]. split; [exact Herr|]. exists (S n). by rewrite Hreq.
    + unfold after. cbn [fst snd app requested].
      split; [exact Hok|]. split; [exact Herr|]. exists (S n). by rewrite Hreq.
    + cbn zeta. destruct (net_ParseIP_To4 (sanitize strings_TrimSpace body)) eqn:Hvalid.
      * cbn [fst snd requested]. split; [intros _; exact Hvalid|].
        split; [done|]. by exists 1.
      * unfold after. cbn [fst snd app requested].
        split; [exact Hok|]. split; [exact Herr|]. exists (S n). by rewrite Hreq.
Qed.

(** What [PublicIP] returns is always one of two things: an address that
    passes the IPv4 test together with a nil error, or the empty string
    together with an error. The services it has asked are a prefix of the
    configured list, and with an empty list it asks none and fails. *)
Theorem PublicIP_answer_shape (v : Validator PrivateKey) :
  let answer := PublicIP http_Get strings_TrimSpace net_ParseIP_To4 v in
  (answer.2.2 = None -> net_ParseIP_To4 answer.2.1 = true) /\
  (answer.2.2 <> None -> answer.2.1 = "") /\
  (exists n, requested answer.1 = take n (PublicIPServiceURLs v)) /\
  (PublicIPServiceURLs v = [] -> answer.1 = [] /\ answer.2.1 = "" /\ answer.2.2 <> None).
Proof.
  intros answer. subst answer. unfold PublicIP.
  destruct (loop_shape (PublicIPServiceURLs v) (PublicIPServiceURLs v) 0)
    as (Hok & Herr & Hreq).
  split; [exact Hok|]. split; [exact Herr|]. split; [exact Hreq|].
  intros ->. done.
Qed.

End publicIP.

End validator_more_facts.

(** ** Cluster and Prometheus configuration *)

Module cluster_facts.
Import cluster.

Section Cluster.
Context (MainNetBeta DevNet TestNet : Known).
Context (url_Parse : string -> validator.URL + string).

Abbreviation names := (validClusterNames MainNetBeta DevNet TestNet).
Abbreviation validated := (Validate MainNetBeta DevNet TestNet url_Parse).
Abbreviation defaulted := (SetDefaults MainNetBeta DevNet TestNet).
Abbreviation valid := (validator_facts.validURL url_Parse).

Lemma validateRPCURLs_iff urls :
  validateRPCURLs url_Parse urls = None <-> Forall valid urls.
Proof.
  split.
  - induction urls as [|u urls IH]; simpl; [constructor|].
    destruct (url_Parse u) as [parsed | err] eqn:Hparse; [|done].
    destruct (String.eqb_spec (validator.Scheme parsed) ""); [done|].
    destruct (String.eqb_spec (validator.Host parsed) ""); [done|]. simpl.
    intros H. constructor; [by exists parsed | by apply IH].
  - induction 1 as [|u urls (parsed & Hparse & Hs & Hh) _ IH]; simpl; [done|].
    rewrite Hparse. apply String.eqb_neq in Hs, Hh. by rewrite Hs, Hh.
Qed.

Lemma unknown_name n :
  n <> KnownName MainNetBeta -> n <> KnownName TestNet -> n <> KnownName DevNet ->
  n ∈ names -> False.
Proof.
  intros Hm Ht Hd Hin. unfold validClusterNames in Hin.
  apply elem_of_cons in Hin as [Hin | Hin]; [done|].
  apply elem_of_cons in Hin as [Hin | Hin]; [done|].
  by apply list_elem_of_singleton in Hin.
Qed.

Lemma Validate_None_intro c :
  Name c ∈ names -> RPCURLs c <> [] -> Forall valid (RPCURLs c) -> validated c = None.
Proof.
  intros Hname Hne Hall. unfold Validate.
  apply slices_Contains_spec in Hname. rewrite Hname. cbn [negb].
  destruct (RPCURLs c) as [|u urls] eqn:Hurls; [done|]. cbn [length Nat.eqb].
  by apply validateRPCURLs_iff.
Qed.

Lemma Validate_None_name c : validated c = None -> Name c ∈ names.
Proof.
  unfold Validate. destruct (slices_Contains names (Name c)) eqn:Hname; [|done].
  intros _. by apply slices_Contains_spec.
Qed.

(** [Cluster.Validate] accepts a cluster exactly when its name is one of
    the three known ones, its list of RPC URLs is not empty and every URL
    in it parses with a scheme and a host. *)
Theorem Cluster_Validate_accepts_iff c :
  Validate MainNetBeta DevNet TestNet url_Parse c = None <->
  Name c ∈ validClusterNames MainNetBeta DevNet TestNet /\
  RPCURLs c <> [] /\ Forall valid (RPCURLs c).
Proof.
  split.
  - intros Hok. split; [by apply Validate_None_name|].
    unfold Validate in Hok.
    destruct (negb (slices_Contains names (Name c))); [done|].
    destruct (RPCURLs c) as [|u urls]; [done|]. cbn [length Nat.eqb] in Hok.
    split; [done | by apply validateRPCURLs_iff].
  - intros (Hname & Hne & Hall). by apply Validate_None_intro.
Qed.

(** [Cluster.SetDefaults] only acts on an empty list of RPC URLs under a
    known name: a list that was given is kept, an unknown name is left
    without URLs, the name is never changed and a second call changes
    nothing. *)
Theorem Cluster_SetDefaults_keeps c :
  (RPCURLs c <> [] -> SetDefaults MainNetBeta DevNet TestNet c = c) /\
  (Name c ∉ validClusterNames MainNetBeta DevNet TestNet ->
   SetDefaults MainNetBeta DevNet TestNet c = c) /\
  Name (SetDefaults MainNetBeta DevNet TestNet c) = Name c /\
  SetDefaults MainNetBeta DevNet TestNet (SetDefaults MainNetBeta DevNet TestNet c)
  = SetDefaults MainNetBeta DevNet TestNet c.
Proof.
  assert (Hgiven : forall c', RPCURLs c' <> [] -> defaulted c' = c').
  { intros c' Hne. unfold SetDefaults. by destruct (RPCURLs c'). }
  split; [apply Hgiven|]. unfold SetDefaults, validClusterNames.
  destruct (RPCURLs c) as [|u urls] eqn:Hurls; cbn [length Nat.eqb].
  2:{ split; [done|]. split; [done|]. by rewrite Hurls. }
  destruct (String.eqb_spec (Name c) (KnownName MainNetBeta)) as [Hm | Hm].
  { split; [intros Hnot; exfalso; apply Hnot; rewrite Hm; left|]. done. }
  destruct (String.eqb_spec (Name c) (KnownName TestNet)) as [Ht | Ht].
  { split; [intros Hnot; exfalso; apply Hnot; rewrite Ht; right; right; left|]. done. }
  destruct (String.eqb_spec (Name c) (KnownName DevNet)) as [Hd | Hd].
  { split; [intros Hnot; exfalso; apply Hnot; rewrite Hd; right; left|]. done. }
  split; [done|]. split; [done|]. rewrite Hurls. cbn [length Nat.eqb].
  apply String.eqb_neq in Hm, Ht, Hd. by rewrite Hm, Ht, Hd.
Qed.

Lemma defaulted_known c :
  Name c ∈ names -> RPCURLs c = [] ->
  exists k, (k = MainNetBeta \/ k = TestNet \/ k = DevNet) /\
    defaulted c = {| Name := Name c; RPCURLs := [KnownRPC k] |}.
Proof.
  intros Hin Hempty. unfold SetDefaults. rewrite Hempty. cbn [length Nat.eqb].
  destruct (String.eqb_spec (Name c) (KnownName MainNetBeta)) as [Hm | Hm];
    [exists MainNetBeta; auto|].
  destruct (String.eqb_spec (Name c) (KnownName TestNet)) as [Ht | Ht];
    [exists TestNet; auto|].
  destruct (String.eqb_spec (Name c) (KnownName DevNet)) as [Hd | Hd];
    [exists DevNet; auto|].
  exfalso. by apply (unknown_name (Name c)).
Qed.

(** With the three default RPC URLs parsing, a cluster given without RPC
    URLs passes [Validate] after [SetDefaults] exactly when its name is a
    known one: the defaults never rescue an unknown name. *)
Theorem Cluster_SetDefaults_then_Validate c :
  valid (KnownRPC MainNetBeta) -> valid (KnownRPC DevNet) -> valid (KnownRPC TestNet) ->
  RPCURLs c = [] ->
  Validate MainNetBeta DevNet TestNet url_Parse (SetDefaults MainNetBeta DevNet TestNet c) = None
  <-> Name c ∈ validClusterNames MainNetBeta DevNet TestNet.
Proof.
  intros Hm Hd Ht Hempty. split.
  - intros Hok. apply Validate_None_name in Hok.
    unfold SetDefaults in Hok. rewrite Hempty in Hok. cbn [length Nat.eqb] in Hok.
    by repeat (destruct (String.eqb _ _) in Hok; [exact Hok|]).
  - intros Hin. destruct (defaulted_known c Hin Hempty) as (k & Hk & ->).
    apply Validate_None_intro; cbn [Name RPCURLs]; [done | done |].
    constructor; [|constructor]. by destruct Hk as [-> | [-> | ->]].
Qed.

End Cluster.

End cluster_facts.

Module prometheus_facts.
Import prometheus.


End prometheus_facts.

(** ** The properties above, at the examples *)

Module more_witnesses.
Import gossip gossip_facts refresh_facts refresh_more_facts.
Import gossip_examples more_examples.

Lemma Refresh_nodes0 : Refresh env0 st0 (nodes0, None) = Ret (refreshed0, log0).
Proof. vm_compute. reflexivity. Qed.

Lemma Refresh_nodesActive :
  Refresh env0 st0 (nodesActive, None) = Ret (refreshedActive, logActive).
Proof. vm_compute. reflexivity. Qed.

Lemma Refresh_nodesV6 : Refresh env0 stV6 (nodesV6, None) = Ret (refreshedV6, logV6).
Proof. vm_compute. reflexivity. Qed.

Lemma env0_steady : steady env0.
Proof. intros i j Hij. cbn. lia. Qed.

Lemma cfg2_distinctIPs : distinctIPs (configPeers st0).
Proof.
  change (configPeers st0) with cfg2. unfold cfg2.
  intros n1 n2 q1 q2 H1 H2 Heq.
  apply lookup_insert_Some in H1 as [[<- <-] | [_ H1]];
    [|apply lookup_insert_Some in H1 as [[<- <-] | [_ H1]];
      [|by rewrite lookup_empty in H1]];
    (apply lookup_insert_Some in H2 as [[<- <-] | [_ H2]];
      [|apply lookup_insert_Some in H2 as [[<- <-] | [_ H2]];
        [|by rewrite lookup_empty in H2]]);
    first [reflexivity | discriminate Heq].
Qed.

Lemma cfg2_named : configPeers st0 !! "" = None.
Proof. vm_compute. reflexivity. Qed.

Lemma Refresh_size_bounds_witness :
  size (peerStatesByName refreshed0) <= size (configPeers st0) /\
  size (peerStatesByName refreshed0) <= length nodes0.
Proof. exact (Refresh_size_bounds env0 st0 (nodes0, None) _ _ Refresh_nodes0). Defined.

Lemma Refresh_stamps_ordered_witness :
  (1001 <= PeerStatesRefreshedAt refreshed0)%Z.
Proof.
  apply (Refresh_stamps_ordered env0 st0 (nodes0, None) _ _ env0_steady Refresh_nodes0
           "validator-1"
           {| IP := "192.168.1.10";
              Pubkey := "AP4JyZq2vuN4u64FGFHTwdG11xHu1vZWVYQj21MPLrnw";
              LastSeenAtUTC := 1001;
              LastSeenActive := false |}).
  vm_compute. reflexivity.
Defined.

Lemma Refresh_again_witness :
  Refresh env0 refreshed0 (nodes0, None) = Ret (refreshed0, log0).
Proof. exact (Refresh_again env0 st0 (nodes0, None) _ _ Refresh_nodes0). Defined.

Lemma Refresh_HasIP_witness : HasIP sorted_range refreshed0 "192.168.1.10" = true.
Proof.
  apply (proj2 (Refresh_HasIP env0 st0 nodes0 _ _ sorted_range "192.168.1.10"
                  Refresh_nodes0) cfg2_named).
  - exists "validator-1", {| peers.Name := "validator-1"; peers.IP := "192.168.1.10" |}.
    split; [vm_compute; reflexivity | reflexivity].
  - eexists _, "192.168.1.10:8001". split; [right; left|]. split; reflexivity.
Defined.

Lemma Refresh_presence_witness : is_Some (peerStatesByName refreshed0 !! "validator-1").
Proof.
  apply (proj2 (Refresh_presence env0 st0 nodes0 _ _ "validator-1"
                  {| peers.Name := "validator-1"; peers.IP := "192.168.1.10" |}
                  cfg2_distinctIPs cfg2_named Refresh_nodes0
                  ltac:(vm_compute; reflexivity))).
  eexists _, "192.168.1.10:8001". split; [right; left|]. split; reflexivity.
Defined.

Lemma Refresh_HasActivePeer_origin_witness :
  exists node g, node ∈ nodesActive /\ rpc.Gossip node = Some g /\
    rpc.Pubkey node = hardcodedActivePubkey /\
    configuredIP (configPeers st0) (strings.SplitHead ":" g).
Proof.
  apply (Refresh_HasActivePeer_origin env0 st0 (nodesActive, None) _ _ sorted_range
           Refresh_nodesActive).
  vm_compute. reflexivity.
Defined.

Lemma Refresh_missing_warning_iff_witness :
  missingWarning "validator-2"
    {| peers.Name := "validator-2"; peers.IP := "192.168.1.11" |} ∈ log0.
Proof.
  apply (proj2 (Refresh_missing_warning_iff env0 st0 nodes0 _ _ "validator-2" _
                  Refresh_nodes0 ltac:(vm_compute; reflexivity))).
  vm_compute. reflexivity.
Defined.

Lemma nodes0_distinctHosts : distinctHosts nodes0.
Proof.
  intros k1 k2 n1 n2 g1 g2 H1 H2 Hg1 Hg2 Hhost. unfold nodes0 in H1, H2.
  destruct k1 as [|[|k1]], k2 as [|[|k2]]; cbn in H1, H2;
    try discriminate H1; try discriminate H2; try reflexivity;
    injection H1 as <-; injection H2 as <-;
    injection Hg1 as <-; injection Hg2 as <-; discriminate Hhost.
Qed.

Lemma Refresh_observation_exact_witness :
  peerStatesByName refreshed0 !! "validator-1" =
    Some {| IP := "192.168.1.10";
            Pubkey := "AP4JyZq2vuN4u64FGFHTwdG11xHu1vZWVYQj21MPLrnw";
            LastSeenAtUTC := 1001;
            LastSeenActive := false |}.
Proof.
  exact (Refresh_observation_exact env0 st0 nodes0 _ _ 1
           {| rpc.Pubkey := "AP4JyZq2vuN4u64FGFHTwdG11xHu1vZWVYQj21MPLrnw";
              rpc.Gossip := Some "192.168.1.10:8001" |}
           "192.168.1.10:8001" "validator-1"
           {| peers.Name := "validator-1"; peers.IP := "192.168.1.10" |}
           cfg2_distinctIPs cfg2_named nodes0_distinctHosts Refresh_nodes0
           eq_refl eq_refl ltac:(vm_compute; reflexivity) eq_refl).
Defined.

Lemma Refresh_colon_IP_never_observed_witness :
  peerStatesByName refreshedV6 !! "validator-6" = None.
Proof.
  apply (Refresh_colon_IP_never_observed env0 stV6 (nodesV6, None) _ _ "validator-6" peerV6
           Refresh_nodesV6).
  - vm_compute. reflexivity.
  - reflexivity.
Defined.

Import validator validator_facts validator_examples.

Lemma Validator_SetDefaults_then_Validate_witness :
  Validator_Validate toyPublicKey toyString toyParse (SetDefaults bareValidator) = Ret None.
Proof.
  apply (validator_more_facts.Validator_SetDefaults_then_Validate
           toyPublicKey toyString toyParse bareValidator).
  - eexists. split; [vm_compute; reflexivity | split; discriminate].
  - repeat constructor;
      (eexists; split; [vm_compute; reflexivity | split; discriminate]).
  - discriminate.
  - left. reflexivity.
  - constructor.
  - left. reflexivity.
Defined.

Lemma Load_then_Validate_witness :
  exists a b,
    toyKeygenFile "/keys/active.json" = inl a /\
    toyKeygenFile "/keys/passive.json" = inl b /\
    ValidatorIdentities_Validate toyPublicKey toyString
      (loaded ("seed-1", "K1") ("seed-2", "K2")) = Ret None.
Proof.
  destruct (validator_more_facts.Load_then_Validate toyPublicKey toyString toyKeygenFile
              identities0 (loaded ("seed-1", "K1") ("seed-2", "K2")) eq_refl)
    as (a & b & Ha & Hb & Hka & Hkb & _ & _ & _ & Hiff).
  exists a, b. split; [exact Ha|]. split; [exact Hb|].
  apply Hiff. injection Hka as <-. injection Hkb as <-. discriminate.
Defined.

Lemma Cluster_SetDefaults_then_Validate_witness :
  cluster.Validate mainnetBeta devnet testnet toyParse
    (cluster.SetDefaults mainnetBeta devnet testnet
       {| cluster.Name := "testnet"; cluster.RPCURLs := [] |}) = None.
Proof.
  apply (proj2 (cluster_facts.Cluster_SetDefaults_then_Validate
                  mainnetBeta devnet testnet toyParse
                  {| cluster.Name := "testnet"; cluster.RPCURLs := [] |}
                  ltac:(eexists; split; [vm_compute; reflexivity | split; discriminate])
                  ltac:(eexists; split; [vm_compute; reflexivity | split; discriminate])
                  ltac:(eexists; split; [vm_compute; reflexivity | split; discriminate])
                  eq_refl)).
  right. right. left.
Defined.

End more_witnesses.
